(** * cast: the request execution pipeline of [src/cast.go]

    A shallow embedding of [Cast.Do] and [Cast.genReply]: the ordered hook
    chains, the per-attempt retry/backoff loop and its interplay with a named
    circuit breaker.  The engine is written in a small monad that threads
    the heap of [Request] objects and the outside world (network, breaker
    health, clock) and collects, in order, the calls the engine makes to its
    collaborators. *)

From Stdlib Require Import ZArith String Lia.
From Stdlib.Strings Require Import Byte.
From stdpp Require Import base option list gmap strings.

Local Open Scope Z_scope.

(** ** Go values *)

(** A Go [error] value, identified by its message; [None] is [nil]. *)
Definition error := string.

(** Go's [int] on a 64-bit platform, with its two's complement wrap-around. *)
Definition int_min : Z := - 2 ^ 63.
Definition int_max : Z := 2 ^ 63 - 1.
Definition wrap_int (z : Z) : Z := (z - int_min) mod 2 ^ 64 + int_min.
Arguments wrap_int : simpl never.

(** [time.Duration] is an [int64] of nanoseconds; [Time.Sub] saturates. *)
Definition Duration := Z.
Definition time_Sub (t u : Z) : Duration := Z.max int_min (Z.min int_max (t - u)).
Arguments time_Sub : simpl never.

(** [context.Context]: the nil interface value, the two roots of the
    standard library, which are never cancelled, and the contexts a caller
    derives with a cancellation token. *)
Inductive Context :=
| context_nil
| context_TODO
| context_Background
| context_WithCancel (token : nat).

Definition cancellable (ctx : Context) : bool :=
  match ctx with context_WithCancel _ => true | _ => false end.

(** [*http.Request]: the fields the engine sets or reads. *)
Record http_Request := {
  Request_ctx : Context;
  Method : string;
  URL : string;
  Request_Body : list byte }.

(** [io.ReadCloser] of a response body: the bytes it delivers, and the
    errors reading and closing it end with. *)
Record ReadCloser := {
  rc_data : list byte;
  rc_readErr : option error;
  rc_closeErr : option error }.

Definition ioutil_ReadAll (b : ReadCloser) : list byte * option error :=
  (rc_data b, rc_readErr b).

Definition Close (b : ReadCloser) : option error := rc_closeErr b.

(** [*http.Response]. *)
Record http_Response := {
  StatusCode : Z;
  Body : ReadCloser }.

(** Addresses of [Request] objects; an address the heap does not hold
    stands for the nil pointer. *)
Definition loc := nat.

(** ** Request and Response *)

Record profiling := {
  requestStart : Z;
  requestDone : Z;
  requestCost : Duration;
  receivingSart : Z;
  receivingDone : Z;
  receivingCost : Duration }.

(** Modelled from the spec: the body source of a [Request], declared outside
    [src/cast.go].  It either serializes to the same bytes on every call, or
    cannot be serialized. *)
Inductive reqBody :=
| bodyBytes (b : list byte)
| bodyUnserializable (e : error).

Record Request := {
  method : string;
  path : string;
  body_source : reqBody;
  circuitName : string;
  rawRequest : option http_Request;
  prof : profiling }.

(** Modelled from the spec: [Request.ReqBody], declared outside
    [src/cast.go]: the current body as bytes, callable any number of times,
    or the error of a body source that cannot be serialized. *)
Definition ReqBody (r : Request) : list byte * option error :=
  match body_source r with
  | bodyBytes b => (b, None)
  | bodyUnserializable e => ([], Some e)
  end.

Record Response := {
  request : loc;
  rawResponse : option http_Response;
  body : option (list byte);
  statusCode : Z }.

(** ** Calls the engine makes to its collaborators *)

Inductive HookKind := BeforeRequest | OnRequest | OnResponse.

Inductive Event :=
| EvReqBody (err : option error)
| EvHook (k : HookKind) (i : nat) (err : option error)
| EvNewRequest (ctx : Context) (err : option error)
| EvGetCircuit (name : string) (found : bool)
| EvExecute (ctx : Context)
| EvTransport (req : http_Request) (raw : option http_Response) (err : option error)
| EvReadAll (err : option error)
| EvClose (err : option error)
| EvIsOpen (open : bool)
| EvRetryHook (i : nat) (resp : option Response) (err : option error) (vote : bool)
| EvSleep (d : Duration)
| EvLog (msg : string) (err : error).

(** How a run of the engine ends: it returns, it panics on a nil pointer,
    or the model runs out of fuel for the attempt loop. *)
Inductive Outcome (A : Type) :=
| Done (a : A)
| Panic
| OutOfFuel.
Arguments Done {A} a.
Arguments Panic {A}.
Arguments OutOfFuel {A}.

Section Engine.

(** The world outside the engine: the network, the health accounting of
    the circuit breakers, the clock, whatever the hooks touch. *)
Context {World : Type}.
Variable time_Now : World -> Z.
(** The checks of [http.NewRequestWithContext] on the method and the URL. *)
Variable validMethod : string -> bool.
Variable url_Parse : string -> option error.

(** What hooks can reach: the heap of requests and the world. *)
Record Store := {
  heap : gmap loc Request;
  world : World }.

(** *** Collaborators *)

(** The [*Cast] receiver a hook is given is the client of the call,
    which [Do] never writes: a hook is modelled as already applied to it.
    Retry and response hooks inspect the [*Response] they are given. *)
Definition BeforeRequestHook := loc -> Store -> option error * Store.
Definition RequestHook := loc -> Store -> option error * Store.
Definition responseHook := option Response -> Store -> option error * Store.
Definition RetryHook := option Response -> option error -> Store -> bool * Store.

(** [backoffStrategy.backoff]. *)
Definition backoffStrategy := Z -> Duration.

(** [http.Client.Do]. *)
Definition http_Client :=
  http_Request -> World -> (option http_Response * option error) * World.

(** Modelled from the spec: [*circuit.Circuit], of the breaker library,
    declared outside [src/cast.go].  On [Execute] the breaker either lets
    the run function go ahead, or short-circuits it with an error of its
    own; after a run it accounts for the result; [IsOpen] reads its health.
    Threshold math and recovery are left open: the three components are
    arbitrary functions of the world. *)
Record Circuit := {
  circ_allow : Context -> World -> option error * World;
  circ_settle : Context -> option error -> World -> World;
  IsOpen : World -> bool }.

Record Cast := {
  client : http_Client;
  baseURL : string;
  retry : Z;
  stg : option backoffStrategy;
  beforeRequestHooks : list BeforeRequestHook;
  requestHooks : list RequestHook;
  responseHooks : list responseHook;
  retryHooks : list RetryHook;
  h : gmap string Circuit;
  defaultCircuitName : string }.

(** *** The monad of the engine *)

(** A computation of the engine runs on the store and produces, with its
    outcome, the new store and the calls it made, in order. *)
Definition M (A : Type) := Store -> Outcome A * Store * list Event.

Definition ret {A} (a : A) : M A := fun s => (Done a, s, []).

Definition bind {A B} (m : M A) (k : A -> M B) : M B :=
  fun s =>
    match m s with
    | (Done a, s1, evs1) =>
        let '(o, s2, evs2) := k a s1 in (o, s2, evs1 ++ evs2)
    | (Panic, s1, evs1) => (Panic, s1, evs1)
    | (OutOfFuel, s1, evs1) => (OutOfFuel, s1, evs1)
    end.

Definition panic {A} : M A := fun s => (Panic, s, []).
Definition out_of_fuel {A} : M A := fun s => (OutOfFuel, s, []).

Definition emit (e : Event) : M unit := fun s => (Done tt, s, [e]).

(** An operation on the store. *)
Definition on_store {A} (f : Store -> A * Store) : M A :=
  fun s => let '(a, s') := f s in (Done a, s', []).

(** An operation on the world alone. *)
Definition on_world {A} (f : World -> A * World) : M A :=
  on_store (fun s => let '(a, w) := f (world s) in
                     (a, {| heap := heap s; world := w |})).

(** [*rq]: a nil pointer dereference panics. *)
Definition deref (rq : loc) : M Request :=
  fun s => match heap s !! rq with
           | Some r => (Done r, s, [])
           | None => (Panic, s, [])
           end.

(** [*rq = r] *)
Definition assign (rq : loc) (r : Request) : M unit :=
  on_store (fun s => (tt, {| heap := <[rq := r]> (heap s); world := world s |})).

(** The three components of a run. *)
Definition outcome {A} (r : Outcome A * Store * list Event) : Outcome A := r.1.1.
Definition final {A} (r : Outcome A * Store * list Event) : Store := r.1.2.
Definition calls {A} (r : Outcome A * Store * list Event) : list Event := r.2.

Notation "'let*' p := m 'in' k" := (bind m (fun p => k))
  (at level 10, p pattern, m at level 100, k at level 200).
Notation "m ;; k" := (bind m (fun _ => k))
  (at level 100, k at level 200, right associativity).

(** *** Calls to the collaborators, each recorded in the trace *)

(** [c.logger.WithError(err).Error(msg)] *)
Definition logError (msg : string) (err : error) : M unit :=
  emit (EvLog msg err).

(** [request.ReqBody()] *)
Definition callReqBody (rq : loc) : M (list byte * option error) :=
  let* r := deref rq in
  emit (EvReqBody (snd (ReqBody r))) ;;
  ret (ReqBody r).

(** [hook(c, request)] for a before-request or a request hook *)
Definition callHook (k : HookKind) (i : nat) (hook : loc -> Store -> option error * Store)
    (rq : loc) : M (option error) :=
  let* err := on_store (hook rq) in
  emit (EvHook k i err) ;;
  ret err.

(** [hook(c, rep)] for a response hook *)
Definition callResponseHook (i : nat) (hook : responseHook) (rep : option Response)
    : M (option error) :=
  let* err := on_store (hook rep) in
  emit (EvHook OnResponse i err) ;;
  ret err.

(** [hook(resp, err)] for a retry hook *)
Definition callRetryHook (i : nat) (hook : RetryHook) (resp : option Response)
    (err : option error) : M bool :=
  let* vote := on_store (hook resp err) in
  emit (EvRetryHook i resp err vote) ;;
  ret vote.

(** [http.NewRequestWithContext(ctx, method, url, bytes.NewReader(body))] *)
Definition http_NewRequestWithContext (ctx : Context) (method url : string)
    (body : list byte) : option http_Request * option error :=
  let method := if String.eqb method "" then "GET"%string else method in
  if negb (validMethod method) then (None, Some "net/http: invalid method"%string)
  else match ctx with
       | context_nil => (None, Some "net/http: nil Context"%string)
       | _ =>
           match url_Parse url with
           | Some e => (None, Some e)
           | None =>
               (Some {| Request_ctx := ctx; Method := method; URL := url;
                        Request_Body := body |}, None)
           end
       end.

(** [c.h.GetCircuit(name)] *)
Definition GetCircuit (c : Cast) (name : string) : M (option Circuit) :=
  emit (EvGetCircuit name (bool_decide (is_Some (h c !! name)))) ;;
  ret (h c !! name).

(** [c.client.Do(request.rawRequest)] *)
Definition clientDo (c : Cast) (rq : loc) : M (option http_Response * option error) :=
  let* r := deref rq in
  match rawRequest r with
  | None => panic
  | Some raw =>
      let* res := on_world (client c raw) in
      emit (EvTransport raw (fst res) (snd res)) ;;
      ret res
  end.

(** Modelled from the spec: [cb.Execute(ctx, runFunc, fallbackFunc)], of
    the breaker library, declared outside [src/cast.go]: [runFunc] runs at
    most once, its error goes into the accounting of the breaker and, as
    the error the breaker refuses a call with, through [fallbackFunc];
    together with the error the caller learns what [runFunc], when it ran,
    left in the variables it captures. *)
Definition Execute {A} (cb : Circuit) (ctx : Context)
    (runFunc : Context -> M (option error * A))
    (fallbackFunc : Context -> error -> option error) : M (option error * option A) :=
  emit (EvExecute ctx) ;;
  let* verdict := on_world (circ_allow cb ctx) in
  match verdict with
  | Some e => ret (fallbackFunc ctx e, None)
  | None =>
      let* (err, a) := runFunc ctx in
      on_world (fun w => (tt, circ_settle cb ctx err w)) ;;
      match err with
      | Some e => ret (fallbackFunc ctx e, Some a)
      | None => ret (None, Some a)
      end
  end.

(** [cb.IsOpen()] *)
Definition callIsOpen (cb : Circuit) : M bool :=
  let* open := on_world (fun w => (IsOpen cb w, w)) in
  emit (EvIsOpen open) ;;
  ret open.

(** [<-time.After(d)] *)
Definition sleep (d : Duration) : M unit := emit (EvSleep d).

(** *** The hook chains *)

(** [for _, hook := range hooks { err = hook(c, request); if err != nil
    { return nil, err } }], for the before-request and the request hooks;
    the result is the error [Do] returns, if any. *)
Fixpoint runRequestHooks (k : HookKind) (i : nat)
    (hooks : list (loc -> Store -> option error * Store)) (rq : loc)
    : M (option error) :=
  match hooks with
  | [] => ret None
  | hook :: hooks' =>
      let* err := callHook k i hook rq in
      match err with
      | Some e => ret (Some e)
      | None => runRequestHooks k (S i) hooks' rq
      end
  end.

(** The loop over [c.responseHooks], which logs the error it stops at. *)
Fixpoint runResponseHooks (i : nat) (hooks : list responseHook)
    (rep : option Response) : M (option error) :=
  match hooks with
  | [] => ret None
  | hook :: hooks' =>
      let* err := callResponseHook i hook rep in
      match err with
      | Some e => logError "hook(c, resp)" e ;; ret (Some e)
      | None => runResponseHooks (S i) hooks' rep
      end
  end.

(** The loop over [c.retryHooks]: [isRetry] after it. *)
Fixpoint runRetryHooks (i : nat) (hooks : list RetryHook)
    (resp : option Response) (err : option error) : M bool :=
  match hooks with
  | [] => ret false
  | hook :: hooks' =>
      let* vote := callRetryHook i hook resp err in
      if vote : bool then ret true
      else runRetryHooks (S i) hooks' resp err
  end.

(** *** genReply *)

(** How one pass through the body of the [for] loop ends: [continue] and
    [break] with the variables [count], [err] and [resp] declared before
    the loop, or [return]. *)
Inductive Ctl :=
| Continue (count : Z) (err : option error) (resp : option Response)
| Break (err : option error) (resp : option Response)
| Return (rep : option Response) (err : option error).

(** Lines 174-181: on a retry the body is materialized again and the
    transport request gets a fresh reader over it. *)
Definition rewindBody (rq : loc) (count : Z) : M (option error) :=
  if 1 <=? count then
    let* (body, err) := callReqBody rq in
    match err with
    | Some e => ret (Some e)
    | None =>
        let* r := deref rq in
        match rawRequest r with
        | None => panic
        | Some raw =>
            assign rq {| method := method r; path := path r;
                         body_source := body_source r;
                         circuitName := circuitName r;
                         rawRequest :=
                           Some {| Request_ctx := Request_ctx raw;
                                   Method := Method raw; URL := URL raw;
                                   Request_Body := body |};
                         prof := prof r |} ;;
            ret None
        end
    end
  else ret None.

(** Lines 182-196: the transport call, through the breaker when one is
    resolved: [rawResponse], [err] and [fallback] after it. *)
Definition exchange (c : Cast) (rq : loc) (cb : option Circuit)
    : M (option http_Response * option error * bool) :=
  match cb with
  | Some cb =>
      let* (err, ran) :=
        Execute cb context_TODO
          (fun i =>
             let* (rawResponse, err) := clientDo c rq in
             match err with
             | Some e => ret (Some e, (rawResponse, true))
             | None => ret (None, (rawResponse, false))
             end)
          (fun i e => Some e) in
      match ran with
      | Some (rawResponse, fallback) => ret (rawResponse, err, fallback)
      | None => ret (None, err, false)
      end
  | None =>
      let* (rawResponse, err) := clientDo c rq in
      ret (rawResponse, err, false)
  end.

(** Lines 198-201: the profiling timestamps. *)
Definition stamp (rq : loc) : M unit :=
  let* r := deref rq in
  let* done1 := on_world (fun w => (time_Now w, w)) in
  let* done2 := on_world (fun w => (time_Now w, w)) in
  assign rq {| method := method r; path := path r;
               body_source := body_source r;
               circuitName := circuitName r;
               rawRequest := rawRequest r;
               prof := {| requestStart := requestStart (prof r);
                          requestDone := done1;
                          requestCost := time_Sub done1 (requestStart (prof r));
                          receivingSart := receivingSart (prof r);
                          receivingDone := done2;
                          receivingCost := time_Sub done2 (receivingSart (prof r)) |} |}.

(** Lines 203-220: the [Response] of the attempt, whose body and status
    code keep the zero values of [new(Response)] without a raw response;
    with one its body is read to the end and closed, and [err] is the
    result of that. *)
Definition buildResponse (rq : loc) (rawResponse : option http_Response)
    (err : option error) : M (Response * option error + error) :=
  match rawResponse with
  | Some raw =>
      let '(repBody, err) := ioutil_ReadAll (Body raw) in
      emit (EvReadAll err) ;;
      match err with
      | Some e => logError "ioutil.ReadAll(rawResponse.Body)" e ;; ret (inr e)
      | None =>
          let err := Close (Body raw) in
          emit (EvClose err) ;;
          match err with
          | Some e => logError "rawResponse.Body.Close()" e ;; ret (inr e)
          | None =>
              ret (inl ({| request := rq; rawResponse := rawResponse;
                           body := Some repBody;
                           statusCode := StatusCode raw |}, err))
          end
      end
  | None =>
      ret (inl ({| request := rq; rawResponse := rawResponse;
                   body := None; statusCode := 0 |}, err))
  end.

(** Line 222: [fallback && cb.IsOpen()]; the breaker is asked only after a
    guarded transport call that failed. *)
Definition tripped (fallback : bool) (cb : option Circuit) : M bool :=
  match fallback, cb with
  | true, Some cb => callIsOpen cb
  | _, _ => ret false
  end.

(** The body of the [for] loop, lines 165-239. *)
Definition attempt (c : Cast) (rq : loc) (count : Z) : M Ctl :=
  let* r := deref rq in
  let* cb :=
    (if (0 <? String.length (circuitName r))%nat
     then GetCircuit c (circuitName r)
     else GetCircuit c (defaultCircuitName c)) in
  let* err := rewindBody rq count in
  match err with
  | Some e => ret (Return None (Some e))
  | None =>
      let* (rawResponse, err, fallback) := exchange c rq cb in
      let count := wrap_int (count + 1) in
      stamp rq ;;
      let* built := buildResponse rq rawResponse err in
      match built with
      | inr e => ret (Return None (Some e))
      | inl (resp, err) =>
          let* stop := tripped fallback cb in
          if stop : bool then ret (Break err (Some resp))
          else
            let* isRetry := runRetryHooks 0 (retryHooks c) (Some resp) err in
            match isRetry, count <=? retry c, stg c with
            | true, true, Some s =>
                sleep (s count) ;;
                ret (Continue count err (Some resp))
            | _, _, _ => ret (Break err (Some resp))
            end
      end
  end.

(** Lines 242-247, after the loop. *)
Definition genReply_exit (err : option error) (resp : option Response)
    : M (option Response * option error) :=
  match err with
  | Some e => logError "c.client.Do" e ;; ret (None, Some e)
  | None => ret (resp, None)
  end.

(** The [for] loop, with fuel for its passes. *)
Fixpoint genReply_loop (fuel : nat) (c : Cast) (rq : loc) (count : Z)
    (err : option error) (resp : option Response)
    : M (option Response * option error) :=
  match fuel with
  | O => out_of_fuel
  | S fuel' =>
      if retry c <? count then genReply_exit err resp
      else
        let* ctl := attempt c rq count in
        match ctl with
        | Continue count' err' resp' => genReply_loop fuel' c rq count' err' resp'
        | Break err' resp' => genReply_exit err' resp'
        | Return rep e => ret (rep, e)
        end
  end.

Definition genReply (fuel : nat) (c : Cast) (rq : loc)
    : M (option Response * option error) :=
  genReply_loop fuel c rq 0 None None.

(** *** Do *)

Definition Do (fuel : nat) (c : Cast) (ctx : Context) (rq : loc)
    : M (option Response * option error) :=
  let* (body, err) := callReqBody rq in
  match err with
  | Some e => logError "request.reqBody" e ;; ret (None, Some e)
  | None =>
      let* err := runRequestHooks BeforeRequest 0 (beforeRequestHooks c) rq in
      match err with
      | Some e => ret (None, Some e)
      | None =>
          let* r := deref rq in
          let '(raw, err) :=
            http_NewRequestWithContext ctx (method r) (baseURL c ++ path r) body in
          emit (EvNewRequest ctx err) ;;
          assign rq {| method := method r; path := path r;
                       body_source := body_source r;
                       circuitName := circuitName r;
                       rawRequest := raw;
                       prof := prof r |} ;;
          match err with
          | Some e => logError "http.NewRequest" e ;; ret (None, Some e)
          | None =>
              let* err := runRequestHooks OnRequest 0 (requestHooks c) rq in
              match err with
              | Some e => ret (None, Some e)
              | None =>
                  let* (rep, err) := genReply fuel c rq in
                  match err with
                  | Some e => ret (None, Some e)
                  | None =>
                      let* err := runResponseHooks 0 (responseHooks c) rep in
                      match err with
                      | Some e => ret (None, Some e)
                      | None => ret (rep, None)
                      end
                  end
              end
          end
      end
  end.

End Engine.

Arguments Store : clear implicits.
Arguments Circuit : clear implicits.
Arguments Cast : clear implicits.
Arguments M : clear implicits.
Arguments BeforeRequestHook : clear implicits.
Arguments RequestHook : clear implicits.
Arguments responseHook : clear implicits.
Arguments RetryHook : clear implicits.
Arguments http_Client : clear implicits.

(** ** Reading the calls of a run *)

Definition is_transport (e : Event) : bool :=
  match e with EvTransport _ _ _ => true | _ => false end.

Definition is_pass (e : Event) : bool :=
  match e with EvGetCircuit _ _ => true | _ => false end.

Definition is_execute (e : Event) : bool :=
  match e with EvExecute _ => true | _ => false end.

Definition is_log (e : Event) : bool :=
  match e with EvLog _ _ => true | _ => false end.

(** The calls made from inside the attempt loop of [genReply]. *)
Definition in_loop (e : Event) : bool :=
  match e with
  | EvGetCircuit _ _ | EvReqBody _ | EvExecute _ | EvTransport _ _ _
  | EvReadAll _ | EvClose _ | EvIsOpen _ | EvRetryHook _ _ _ _ | EvSleep _ => true
  | _ => false
  end.




Definition is_open (e : Event) : bool :=
  match e with EvIsOpen true => true | _ => false end.

(** No call of kind [T] in [evs]; exactly one, [f], after [l1] and before
    [post]. *)
Definition clean (T : Event -> bool) (evs : list Event) : Prop :=
  Forall (fun x => T x = false) evs.

Definition stopped (T : Event -> bool) (evs l1 : list Event) (f : Event)
    (post : list Event) : Prop :=
  evs = l1 ++ f :: post /\ clean T l1 /\ T f = true /\ clean T post.


Definition count_calls (f : Event -> bool) (evs : list Event) : nat :=
  length (List.filter f evs).

(** The number of transport calls, and of passes through the loop. *)
Definition transports : list Event -> nat := count_calls is_transport.
Definition attempts : list Event -> nat := count_calls is_pass.

(** The hooks of chain [k] that ran, with what they returned. *)
Definition hook_of (k : HookKind) (e : Event) : option (nat * option error) :=
  match e with
  | EvHook k' i err =>
      match k, k' with
      | BeforeRequest, BeforeRequest | OnRequest, OnRequest
      | OnResponse, OnResponse => Some (i, err)
      | _, _ => None
      end
  | _ => None
  end.

Definition hooks_run (k : HookKind) : list Event -> list (nat * option error) :=
  omap (hook_of k).






(** What the retry hooks are invoked with, according to claim C10. *)
Definition retry_argument_ok (rq : loc) (e : Event) : Prop :=
  match e with
  | EvRetryHook _ resp _ _ =>
      exists r, resp = Some r /\ request r = rq /\
                (rawResponse r = None -> body r = None /\ statusCode r = 0)
  | _ => True
  end.

Section Shapes.

Context {World : Type}.

(** The circuit name of a pass: the one of the request, the default of
    the client when the request has none. *)
Definition resolve (c : Cast World) (r : Request) : string :=
  if decide (circuitName r = ""%string) then defaultCircuitName c else circuitName r.

Definition registered (c : Cast World) (name : string) : bool :=
  bool_decide (is_Some (h c !! name)).

(** The hooks [0 .. n-1] of chain [k], none of which failed. *)
Definition oks (k : HookKind) (i n : nat) : list Event :=
  map (fun j => EvHook k j None) (seq i n).

(** [n] retry hooks voting no, then one voting yes if [v]. *)
Definition ballots (resp : option Response) (err : option error)
    (i n : nat) (v : bool) : list Event :=
  map (fun j => EvRetryHook j resp err false) (seq i n)
  ++ (if v then [EvRetryHook (i + n) resp err true] else []).

Definition rewound (count : Z) : list Event :=
  if 1 <=? count then [EvReqBody None] else [].

(** What the transport call of a pass does: direct without a breaker;
    with one, short-circuited by the breaker, or run under its guard. *)
Inductive exchanged (cb : option (Circuit World))
    : option http_Response -> option error -> bool -> list Event -> Prop :=
| exchanged_direct raw rsp err :
    cb = None ->
    exchanged cb rsp err false [EvTransport raw rsp err]
| exchanged_rejected e :
    is_Some cb ->
    exchanged cb None (Some e) false [EvExecute context_TODO]
| exchanged_guarded raw rsp err :
    is_Some cb ->
    exchanged cb rsp err (bool_decide (is_Some err))
      [EvExecute context_TODO; EvTransport raw rsp err].

(** The [Response] of a pass whose body could be read and closed. *)
Definition response_of (rq : loc) (rsp : option http_Response) : Response :=
  match rsp with
  | Some raw =>
      {| request := rq; rawResponse := Some raw;
         body := Some (rc_data (Body raw)); statusCode := StatusCode raw |}
  | None =>
      {| request := rq; rawResponse := None; body := None; statusCode := 0 |}
  end.

Definition readable (rsp : option http_Response) : Prop :=
  match rsp with
  | Some raw => rc_readErr (Body raw) = None /\ rc_closeErr (Body raw) = None
  | None => True
  end.

Definition read_calls (rsp : option http_Response) : list Event :=
  match rsp with
  | Some _ => [EvReadAll None; EvClose None]
  | None => []
  end.

Definition err_after (rsp : option http_Response) (err : option error)
    : option error :=
  match rsp with Some _ => None | None => err end.

(** The delay before the next pass, when there is one. *)
Definition decision (c : Cast World) (count : Z) (v : bool) : option Duration :=
  match v, count <=? retry c, stg c with
  | true, true, Some s => Some (s count)
  | _, _, _ => None
  end.

(** One pass through the body of the loop, entered with [count], as seen
    from outside: how it ends and the calls it makes. *)
Inductive pass (c : Cast World) (rq : loc) (count : Z) (name : string)
    : Outcome Ctl -> list Event -> Prop :=
| pass_rewind_failed e :
    1 <= count ->
    pass c rq count name (Done (Return None (Some e)))
      [EvGetCircuit name (registered c name); EvReqBody (Some e)]
| pass_no_raw_request :
    pass c rq count name Panic
      (EvGetCircuit name (registered c name) :: rewound count
         ++ (if registered c name then [EvExecute context_TODO] else []))
| pass_no_raw_request_rewind :
    1 <= count ->
    pass c rq count name Panic
      [EvGetCircuit name (registered c name); EvReqBody None]
| pass_read_failed raw err fb X e :
    exchanged (h c !! name) (Some raw) err fb X ->
    rc_readErr (Body raw) = Some e ->
    pass c rq count name (Done (Return None (Some e)))
      (EvGetCircuit name (registered c name) :: rewound count ++ X
         ++ [EvReadAll (Some e); EvLog "ioutil.ReadAll(rawResponse.Body)" e])
| pass_close_failed raw err fb X e :
    exchanged (h c !! name) (Some raw) err fb X ->
    rc_readErr (Body raw) = None ->
    rc_closeErr (Body raw) = Some e ->
    pass c rq count name (Done (Return None (Some e)))
      (EvGetCircuit name (registered c name) :: rewound count ++ X
         ++ [EvReadAll None; EvClose (Some e);
             EvLog "rawResponse.Body.Close()" e])
| pass_tripped rsp err X :
    exchanged (h c !! name) rsp err true X ->
    readable rsp ->
    pass c rq count name
      (Done (Break (err_after rsp err) (Some (response_of rq rsp))))
      (EvGetCircuit name (registered c name) :: rewound count ++ X
         ++ read_calls rsp ++ [EvIsOpen true])
| pass_retry rsp err fb X n d :
    exchanged (h c !! name) rsp err fb X ->
    readable rsp ->
    (n < length (retryHooks c))%nat ->
    decision c (wrap_int (count + 1)) true = Some d ->
    pass c rq count name
      (Done (Continue (wrap_int (count + 1)) (err_after rsp err)
               (Some (response_of rq rsp))))
      (EvGetCircuit name (registered c name) :: rewound count ++ X
         ++ read_calls rsp ++ (if fb then [EvIsOpen false] else [])
         ++ ballots (Some (response_of rq rsp)) (err_after rsp err) 0 n true
         ++ [EvSleep d])
| pass_last rsp err fb X n (v : bool) :
    exchanged (h c !! name) rsp err fb X ->
    readable rsp ->
    (if v then (n < length (retryHooks c))%nat else n = length (retryHooks c)) ->
    decision c (wrap_int (count + 1)) v = None ->
    pass c rq count name
      (Done (Break (err_after rsp err) (Some (response_of rq rsp))))
      (EvGetCircuit name (registered c name) :: rewound count ++ X
         ++ read_calls rsp ++ (if fb then [EvIsOpen false] else [])
         ++ ballots (Some (response_of rq rsp)) (err_after rsp err) 0 n v).



(** The lines after the loop. *)
Definition exit_calls (err : option error) : list Event :=
  match err with
  | Some e => [EvLog "c.client.Do" e]
  | None => []
  end.

Definition exit_value (err : option error) (resp : option Response)
    : option Response * option error :=
  match err with
  | Some e => (None, Some e)
  | None => (resp, None)
  end.

(** The loop, entered with [count], [err] and [resp], with fuel for
    [fuel] passes. *)
Inductive passes (c : Cast World) (rq : loc)
    : nat -> Z -> option error -> option Response ->
      Outcome (option Response * option error) -> list Event -> Prop :=
| passes_fuel count err resp :
    passes c rq 0 count err resp OutOfFuel []
| passes_over fuel count err resp :
    retry c < count ->
    passes c rq (S fuel) count err resp
      (Done (exit_value err resp)) (exit_calls err)
| passes_panic fuel count err resp name evs :
    count <= retry c ->
    pass c rq count name Panic evs ->
    passes c rq (S fuel) count err resp Panic evs
| passes_return fuel count err resp name rep e evs :
    count <= retry c ->
    pass c rq count name (Done (Return rep e)) evs ->
    passes c rq (S fuel) count err resp (Done (rep, e)) evs
| passes_break fuel count err resp name err' resp' evs :
    count <= retry c ->
    pass c rq count name (Done (Break err' resp')) evs ->
    passes c rq (S fuel) count err resp (Done (exit_value err' resp'))
      (evs ++ exit_calls err')
| passes_continue fuel count err resp name count' err' resp' evs o evs' :
    count <= retry c ->
    pass c rq count name (Done (Continue count' err' resp')) evs ->
    passes c rq fuel count' err' resp' o evs' ->
    passes c rq (S fuel) count err resp o (evs ++ evs')
| passes_nil fuel count err resp :
    count <= retry c ->
    passes c rq (S fuel) count err resp Panic [].

(** What the calls made from the loop look like: the breaker is entered
    with [context.TODO()], and the retry hooks are given the response of
    the pass. *)
Definition loop_call (rq : loc) (e : Event) : Prop :=
  match e with
  | EvExecute ctx => ctx = context_TODO
  | EvRetryHook _ resp _ _ => exists rsp, resp = Some (response_of rq rsp)
  | EvHook _ _ _ | EvNewRequest _ _ => False
  | _ => True
  end.

(** The votes of a pass are taken on the response and the error its
    transport call left. *)
Definition votes_on (resp : option Response) (err : option error)
    (e : Event) : Prop :=
  match e with
  | EvRetryHook _ resp' err' _ => resp' = resp /\ err' = err
  | _ => True
  end.

(** A list of calls that ends with a transport call that failed under
    the guard of the breaker, and the reading of its body if it has one. *)
Definition after_failed_guarded_call (evs : list Event) : Prop :=
  exists l0 raw rsp e,
    evs = l0 ++ EvExecute context_TODO :: EvTransport raw rsp (Some e)
             :: read_calls rsp.




(** What the calls of [Do] look like. *)
Definition Do_call (ctx : Context) (rq : loc) (e : Event) : Prop :=
  match e with
  | EvHook _ _ _ => True
  | EvNewRequest ctx' _ => ctx' = ctx
  | _ => loop_call rq e
  end.

(** The calls of [Do] up to the loop, when nothing fails. *)
Definition setup (c : Cast World) (ctx : Context) : list Event :=
  EvReqBody None
    :: oks BeforeRequest 0 (length (beforeRequestHooks c))
    ++ [EvNewRequest ctx None]
    ++ oks OnRequest 0 (length (requestHooks c)).

(** A call of [Do], as seen from outside. *)
Inductive conducted (fuel : nat) (c : Cast World) (ctx : Context) (rq : loc)
    : Outcome (option Response * option error) -> list Event -> Prop :=
| conducted_nil :
    conducted fuel c ctx rq Panic []
| conducted_body_failed e :
    conducted fuel c ctx rq (Done (None, Some e))
      [EvReqBody (Some e); EvLog "request.reqBody" e]
| conducted_before_failed n e :
    (n < length (beforeRequestHooks c))%nat ->
    conducted fuel c ctx rq (Done (None, Some e))
      (EvReqBody None :: oks BeforeRequest 0 n
         ++ [EvHook BeforeRequest n (Some e)])
| conducted_lost :
    conducted fuel c ctx rq Panic
      (EvReqBody None :: oks BeforeRequest 0 (length (beforeRequestHooks c)))
| conducted_request_failed e :
    conducted fuel c ctx rq (Done (None, Some e))
      (EvReqBody None :: oks BeforeRequest 0 (length (beforeRequestHooks c))
         ++ [EvNewRequest ctx (Some e); EvLog "http.NewRequest" e])
| conducted_hook_failed n e :
    (n < length (requestHooks c))%nat ->
    conducted fuel c ctx rq (Done (None, Some e))
      (EvReqBody None :: oks BeforeRequest 0 (length (beforeRequestHooks c))
         ++ [EvNewRequest ctx None]
         ++ oks OnRequest 0 n ++ [EvHook OnRequest n (Some e)])
| conducted_panic L :
    passes c rq fuel 0 None None Panic L ->
    conducted fuel c ctx rq Panic (setup c ctx ++ L)
| conducted_fuel L :
    passes c rq fuel 0 None None OutOfFuel L ->
    conducted fuel c ctx rq OutOfFuel (setup c ctx ++ L)
| conducted_failed rep e L :
    passes c rq fuel 0 None None (Done (rep, Some e)) L ->
    conducted fuel c ctx rq (Done (None, Some e)) (setup c ctx ++ L)
| conducted_response_failed rep L n e :
    passes c rq fuel 0 None None (Done (rep, None)) L ->
    (n < length (responseHooks c))%nat ->
    conducted fuel c ctx rq (Done (None, Some e))
      (setup c ctx ++ L ++ oks OnResponse 0 n
         ++ [EvHook OnResponse n (Some e); EvLog "hook(c, resp)" e])
| conducted_replied rep L :
    passes c rq fuel 0 None None (Done (rep, None)) L ->
    conducted fuel c ctx rq (Done (rep, None))
      (setup c ctx ++ L ++ oks OnResponse 0 (length (responseHooks c))).

End Shapes.

(** * More of the engine and of its callers *)

(** ** More readings of the calls *)

Definition is_body_failure (e : Event) : bool :=
  match e with EvReqBody (Some _) => true | _ => false end.

Definition is_request_failure (e : Event) : bool :=
  match e with EvNewRequest _ (Some _) => true | _ => false end.



(** The transport calls of a list are made with [raw]. *)
Definition sends (raw : http_Request) (e : Event) : Prop :=
  match e with EvTransport raw' _ _ => raw' = raw | _ => True end.

(** The transport request of a pass entered with [count], for a request that
    holds [raw0]: on a retry it gets a fresh reader over the body. *)
Definition resent (count : Z) (r : Request) (raw0 : http_Request) : http_Request :=
  if 1 <=? count
  then {| Request_ctx := Request_ctx raw0; Method := Method raw0;
          URL := URL raw0; Request_Body := (ReqBody r).1 |}
  else raw0.


Section Requests.

Context {World : Type}.
Variable validMethod : string -> bool.
Variable url_Parse : string -> option error.

(** [c.BaseURL()], line 250. *)
Definition BaseURL (c : Cast World) : string := baseURL c.

(** What [http.NewRequestWithContext] returned is what [Do] goes by. *)
Definition built_by (ctx : Context) (e : Event) : Prop :=
  match e with
  | EvNewRequest _ err =>
      exists method url body,
        err = (http_NewRequestWithContext validMethod url_Parse ctx method url body).2
  | _ => True
  end.

(** The transport request [Do] builds for [r] when
    [http.NewRequestWithContext] succeeds. *)
Definition built (c : Cast World) (ctx : Context) (r : Request) : http_Request :=
  {| Request_ctx := ctx;
     Method := if String.eqb (method r) "" then "GET"%string else method r;
     URL := BaseURL c ++ path r;
     Request_Body := (ReqBody r).1 |}.


End Requests.

(** ** New

    The constructor of [src/cast.go], lines 45-104, on the [Cast] struct
    as it is declared there. *)

Module Construction.

Definition time_Second : Duration := 1000000000.

(** [net.Dialer], [http.Transport] and [http.Client]: the fields [New]
    sets. *)
Record net_Dialer := {
  Dialer_Timeout : Duration;
  KeepAlive : Duration;
  DualStack : bool }.

Inductive ProxyFunc := http_ProxyFromEnvironment.

Record http_Transport := {
  Proxy : ProxyFunc;
  DialContext : net_Dialer;
  MaxIdleConns : Z;
  MaxIdleConnsPerHost : Z;
  IdleConnTimeout : Duration;
  TLSHandshakeTimeout : Duration;
  ExpectContinueTimeout : Duration }.

Record http_Client := {
  Transport : http_Transport;
  Timeout : Duration }.

(** [logrus.Logger], as [New] configures it. *)
Inductive Writer := os_Stderr.
Inductive logrus_Level := logrus_InfoLevel.

Record logrus_Logger := {
  TimestampFormat : string;
  ReportCaller : bool;
  Out : Writer;
  Level : logrus_Level }.

(** [hystrix.Factory] and [circuit.Manager]. *)
Inductive Clock := time_Now.

Record hystrix_ConfigureOpener := {
  ErrorThresholdPercentage : Z;
  RequestVolumeThreshold : Z;
  RollingDuration : Duration;
  Now : Clock;
  NumBuckets : Z }.

Record hystrix_ConfigureCloser := {
  SleepWindow : Duration;
  HalfOpenAttempts : Z;
  RequiredConcurrentSuccessful : Z }.

Record hystrix_Factory := {
  ConfigureOpener : hystrix_ConfigureOpener;
  ConfigureCloser : hystrix_ConfigureCloser }.

Section New.

Context {World : Type}.

(** Declared in other files of the package. *)
Context {BasicAuth http_Cookie : Type}.
Variable defaultBeforeRequestHooks : list (BeforeRequestHook World).
Variable defaultRequestHooks : list (RequestHook World).
Variable defaultResponseHooks : list (responseHook World).
Variable defaultRetryHooks : list (RetryHook World).
Variable fStd : Z.

(** [circuit.Manager]: the properties new circuits get, and the circuits
    created so far. *)
Record circuit_Manager := {
  DefaultCircuitProperties : list hystrix_Factory;
  circuits : gmap string (Circuit World) }.

(** The [Cast] struct, lines 22-42; a pointer field that is nil is
    [None]. *)
Record Cast := {
  client : option http_Client;
  baseURL : string;
  header : option (gmap string (list string));
  basicAuth : option BasicAuth;
  bearerToken : string;
  cookies : list http_Cookie;
  retry : Z;
  stg : option backoffStrategy;
  beforeRequestHooks : list (BeforeRequestHook World);
  requestHooks : list (RequestHook World);
  responseHooks : list (responseHook World);
  retryHooks : list (RetryHook World);
  dumpFlag : Z;
  httpClientTimeout : Duration;
  logger : option logrus_Logger;
  h : circuit_Manager;
  defaultCircuitName : string }.

(** A [Setter] writes to the [Cast] it is given, and may fail. *)
Definition Setter := Cast -> option error * Cast.

(** Lines 46-78: the [Cast] the setters are given first. *)
Definition initial : Cast :=
  {| client := None;
     baseURL := "";
     header := Some ∅;
     basicAuth := None;
     bearerToken := "";
     cookies := [];
     retry := 0;
     stg := None;
     beforeRequestHooks := defaultBeforeRequestHooks;
     requestHooks := defaultRequestHooks;
     responseHooks := defaultResponseHooks;
     retryHooks := defaultRetryHooks;
     dumpFlag := fStd;
     httpClientTimeout := 10 * time_Second;
     logger := Some {| TimestampFormat := "2006-01-02 15:04:05";
                       ReportCaller := true;
                       Out := os_Stderr;
                       Level := logrus_InfoLevel |};
     h := {| DefaultCircuitProperties :=
               [ {| ConfigureOpener :=
                      {| ErrorThresholdPercentage := 70;
                         RequestVolumeThreshold := 10;
                         RollingDuration := 10 * time_Second;
                         Now := time_Now;
                         NumBuckets := 10 |};
                    ConfigureCloser :=
                      {| SleepWindow := 10 * time_Second;
                         HalfOpenAttempts := 1;
                         RequiredConcurrentSuccessful := 1 |} |} ];
             circuits := ∅ |};
     defaultCircuitName := "" |}.

(** Lines 80-84: [for _, s := range sl { if err := s(c); err != nil
    { return nil, err } }]. *)
Fixpoint applySetters (sl : list Setter) (c : Cast) : option error * Cast :=
  match sl with
  | [] => (None, c)
  | s :: sl' =>
      let '(err, c') := s c in
      match err with
      | Some e => (Some e, c')
      | None => applySetters sl' c'
      end
  end.

(** Lines 86-101: the client [New] installs. *)
Definition newClient (timeout : Duration) : http_Client :=
  {| Transport :=
       {| Proxy := http_ProxyFromEnvironment;
          DialContext := {| Dialer_Timeout := 30 * time_Second;
                            KeepAlive := 30 * time_Second;
                            DualStack := true |};
          MaxIdleConns := 2000;
          MaxIdleConnsPerHost := 2000;
          IdleConnTimeout := 90 * time_Second;
          TLSHandshakeTimeout := 10 * time_Second;
          ExpectContinueTimeout := 1 * time_Second |};
     Timeout := timeout |}.

Definition New (sl : list Setter) : option Cast * option error :=
  let '(err, c) := applySetters sl initial in
  match err with
  | Some e => (None, Some e)
  | None =>
      (Some {| client := Some (newClient (httpClientTimeout c));
               baseURL := baseURL c;
               header := header c;
               basicAuth := basicAuth c;
               bearerToken := bearerToken c;
               cookies := cookies c;
               retry := retry c;
               stg := stg c;
               beforeRequestHooks := beforeRequestHooks c;
               requestHooks := requestHooks c;
               responseHooks := responseHooks c;
               retryHooks := retryHooks c;
               dumpFlag := dumpFlag c;
               httpClientTimeout := httpClientTimeout c;
               logger := logger c;
               h := h c;
               defaultCircuitName := defaultCircuitName c |}, None)
  end.

End New.

End Construction.


(** * Example clients

    The scenarios of the specification, used below to run the engine. *)

Module Examples.

(** A still clock, and a standard library that accepts every method and
    URL. *)
Definition clock {World} (w : World) : Z := 0.
Definition anyMethod (m : string) : bool := true.
Definition anyURL (u : string) : option error := None.

Definition get_x (b : reqBody) : Request :=
  {| method := "GET"; path := "/x"; body_source := b; circuitName := "";
     rawRequest := None;
     prof := {| requestStart := 0; requestDone := 0; requestCost := 0;
                receivingSart := 0; receivingDone := 0; receivingCost := 0 |} |}.

(** The request of the call lives at address 1; the world counts the
    transport calls made so far. *)
Definition start (b : reqBody) : Store nat :=
  {| heap := {[ 1%nat := get_x b ]}; world := 0%nat |}.

Definition reply (status : Z) (readErr closeErr : option error) : http_Response :=
  {| StatusCode := status;
     Body := {| rc_data := ["o"%byte; "k"%byte];
                rc_readErr := readErr; rc_closeErr := closeErr |} |}.

(** Transports: one that answers 500, 500, 200, ...; one that is down; one
    whose response body cannot be read. *)
Definition flaky : http_Client nat :=
  fun _ w => ((Some (reply (if (w <? 2)%nat then 500 else 200) None None), None), S w).
Definition down : http_Client nat :=
  fun _ w => ((None, Some "connection refused"%string), S w).

Definition retry_on_500 : RetryHook nat :=
  fun resp _ s =>
    (match resp with Some r => statusCode r =? 500 | None => false end, s).
Definition retry_always : RetryHook nat := fun _ _ s => (true, s).


(** A backoff of 100ns for each attempt made. *)
Definition linear : backoffStrategy := fun count => count * 100.

(** A breaker that lets every call through and says it is open. *)
Definition open_breaker : Circuit nat :=
  {| circ_allow := fun _ w => (None, w);
     circ_settle := fun _ _ w => w;
     IsOpen := fun _ => true |}.

(** A breaker that is open and refuses every call. *)
Definition refusing_breaker : Circuit nat :=
  {| circ_allow := fun _ w => (Some "circuit open"%string, w);
     circ_settle := fun _ _ w => w;
     IsOpen := fun _ => true |}.

Definition cast (cl : http_Client nat) (R : Z) (hooks : list (RetryHook nat))
    (before : list (BeforeRequestHook nat))
    (circuits : gmap string (Circuit nat)) : Cast nat :=
  {| client := cl; baseURL := "http://svc"; retry := R; stg := Some linear;
     beforeRequestHooks := before; requestHooks := []; responseHooks := [];
     retryHooks := hooks; h := circuits; defaultCircuitName := "main" |}.

(** [retry = 2], retry on HTTP 500 only, the transport answers 500, 500,
    200. *)
Definition c_flaky : Cast nat := cast flaky 2 [retry_on_500] [] ∅.

(** [retry = 3], no breaker, the transport is down, the hook always
    votes retry. *)
Definition c_down : Cast nat := cast down 3 [retry_always] [] ∅.

(** [retry = 5], a breaker that is open after the first failing attempt. *)
Definition c_tripped : Cast nat :=
  cast down 5 [retry_always] [] {[ "main"%string := open_breaker ]}.

(** [retry = 1], a breaker that says it is open, a transport that answers
    500 without error. *)
Definition c_open : Cast nat :=
  cast flaky 1 [retry_on_500] [] {[ "main"%string := open_breaker ]}.

(** [retry = 1], a breaker that is open and refuses every call. *)
Definition c_refused : Cast nat :=
  cast flaky 1 [retry_always] [] {[ "main"%string := refusing_breaker ]}.



Definition run (fuel : nat) (c : Cast nat) (ctx : Context) (b : reqBody) :=
  Do clock anyMethod anyURL fuel c ctx 1%nat (start b).

(** The store once [Do] has built the transport request, where the loop
    starts. *)
Definition ready (c : Cast nat) : Store nat :=
  final (run 0 c context_Background (bodyBytes [])).

(** The request as [Do] leaves it there. *)
Definition sent_x : Request :=
  {| method := "GET"; path := "/x"; body_source := bodyBytes [];
     circuitName := "";
     rawRequest := Some {| Request_ctx := context_Background; Method := "GET";
                           URL := "http://svc/x"; Request_Body := [] |};
     prof := prof (get_x (bodyBytes [])) |}.




End Examples.

(** * More example clients *)

Module MoreExamples.

Import Examples.



(** A retry hook that votes retry and gives the request a body that cannot
    be serialized. *)
Definition spoiled_x : Request :=
  {| method := "GET"; path := "/x";
     body_source := bodyUnserializable "unsupported type";
     circuitName := ""; rawRequest := rawRequest sent_x;
     prof := prof sent_x |}.

Definition spoil : RetryHook nat :=
  fun _ _ s =>
    (true, {| heap := <[1%nat := spoiled_x]> (heap s); world := world s |}).

Definition c_spoiling : Cast nat := cast down 3 [spoil] [] ∅.

(** A request with a body, whose transport request has been read to the
    end by an earlier attempt. *)
Definition posted_x : Request :=
  {| method := "POST"; path := "/x";
     body_source := bodyBytes ["h"%byte; "i"%byte];
     circuitName := "";
     rawRequest := Some {| Request_ctx := context_Background; Method := "POST";
                           URL := "http://svc/x"; Request_Body := [] |};
     prof := prof sent_x |}.

Definition retrying : Store nat :=
  {| heap := {[ 1%nat := posted_x ]}; world := 1%nat |}.

(** Setters: one that sets the retry count, one that sets the timeout of
    the client and a client of its own, one that fails. *)
Definition Cast0 : Type :=
  Construction.Cast (World := nat) (BasicAuth := unit) (http_Cookie := unit).

Definition WithRetry (n : Z) : Cast0 -> option error * Cast0 :=
  fun c =>
    (None,
     {| Construction.client := Construction.client c;
        Construction.baseURL := Construction.baseURL c;
        Construction.header := Construction.header c;
        Construction.basicAuth := Construction.basicAuth c;
        Construction.bearerToken := Construction.bearerToken c;
        Construction.cookies := Construction.cookies c;
        Construction.retry := n;
        Construction.stg := Construction.stg c;
        Construction.beforeRequestHooks := Construction.beforeRequestHooks c;
        Construction.requestHooks := Construction.requestHooks c;
        Construction.responseHooks := Construction.responseHooks c;
        Construction.retryHooks := Construction.retryHooks c;
        Construction.dumpFlag := Construction.dumpFlag c;
        Construction.httpClientTimeout := Construction.httpClientTimeout c;
        Construction.logger := Construction.logger c;
        Construction.h := Construction.h c;
        Construction.defaultCircuitName := Construction.defaultCircuitName c |}).


Definition WithError (e : error) : Cast0 -> option error * Cast0 :=
  fun c => (Some e, c).

Definition New0 (sl : list (Cast0 -> option error * Cast0)) :=
  Construction.New [] [] [] [] 0 sl.

End MoreExamples.

(** * The calls of each part of the engine *)

Section Runs.

Context {World : Type}.
Variable time_Now : World -> Z.
Variable validMethod : string -> bool.
Variable url_Parse : string -> option error.

Implicit Types (s : Store World) (c : Cast World) (evs : list Event).

(** ** Runs of the monad *)

Lemma bind_inv {A B} (m : M World A) (k : A -> M World B) s o s' evs :
  bind m k s = (o, s', evs) ->
  (exists a s1 evs1 evs2,
      m s = (Done a, s1, evs1) /\ k a s1 = (o, s', evs2) /\ evs = evs1 ++ evs2)
  \/ (m s = (Panic, s', evs) /\ o = Panic)
  \/ (m s = (OutOfFuel, s', evs) /\ o = OutOfFuel).
Proof.
  unfold bind. destruct (m s) as [[[a| |] s1] evs1].
  - destruct (k a s1) as [[o2 s2] evs2] eqn:Hk. intros [= <- <- <-].
    left. by exists a, s1, evs1, evs2.
  - intros [= <- <- <-]. right; by left.
  - intros [= <- <- <-]. right; by right.
Qed.

Lemma ret_inv {A} (a : A) s o s' evs :
  ret a s = (o, s', evs) -> o = Done a /\ s' = s /\ evs = [].
Proof. by intros [= <- <- <-]. Qed.

Lemma emit_inv e s o s' evs :
  emit e s = (o, s', evs) -> o = Done tt /\ s' = s /\ evs = [e].
Proof. by intros [= <- <- <-]. Qed.

Lemma panic_inv {A} s (o : Outcome A) s' evs :
  panic s = (o, s', evs) -> o = Panic /\ s' = s /\ evs = [].
Proof. by intros [= <- <- <-]. Qed.

Lemma deref_inv rq s o s' evs :
  deref rq s = (o, s', evs) ->
  s' = s /\ evs = [] /\
  match heap s !! rq with
  | Some r => o = Done r
  | None => o = Panic
  end.
Proof. unfold deref. by destruct (heap s !! rq); intros [= <- <- <-]. Qed.

Lemma on_store_inv {A} (f : Store World -> A * Store World) s o s' evs :
  on_store f s = (o, s', evs) -> o = Done (f s).1 /\ s' = (f s).2 /\ evs = [].
Proof. unfold on_store. destruct (f s) as [a s1]. by intros [= <- <- <-]. Qed.

Lemma on_world_inv {A} (f : World -> A * World) s o s' evs :
  on_world f s = (o, s', evs) ->
  o = Done (f (world s)).1 /\ heap s' = heap s /\ evs = [].
Proof.
  unfold on_world, on_store. destruct (f (world s)) as [a w].
  by intros [= <- <- <-].
Qed.

Lemma assign_inv rq r s o s' evs :
  assign rq r s = (o, s', evs) ->
  o = Done tt /\ heap s' = <[rq := r]> (heap s) /\ evs = [].
Proof. by intros [= <- <- <-]. Qed.

(** Decomposes the runs [m s = (o, s', evs)] among the hypotheses into
    the runs of their parts, with one goal for each way they can end. *)
Ltac run_fn := fail.

Ltac run_step :=
  match goal with
  | H : bind _ _ _ = _ |- _ =>
      apply bind_inv in H as [(? & ? & ? & ? & ? & H & ?) | [[H ?] | [H ?]]];
      cbv beta iota in H
  | H : ret _ _ = _ |- _ => apply ret_inv in H as (? & ? & ?)
  | H : emit _ _ = _ |- _ => apply emit_inv in H as (? & ? & ?)
  | H : logError _ _ _ = _ |- _ => apply emit_inv in H as (? & ? & ?)
  | H : sleep _ _ = _ |- _ => apply emit_inv in H as (? & ? & ?)
  | H : panic _ = _ |- _ => apply panic_inv in H as (? & ? & ?)
  | H : deref _ _ = _ |- _ => apply deref_inv in H as (? & ? & ?)
  | H : on_store _ _ = _ |- _ => apply on_store_inv in H as (? & ? & ?)
  | H : on_world _ _ = _ |- _ => apply on_world_inv in H as (? & ? & ?)
  | H : assign _ _ _ = _ |- _ => apply assign_inv in H as (? & ? & ?)
  | H : (match ?x with _ => _ end) _ = (_, _, _) |- _ => destruct x eqn:?
  | H : match ?x with _ => _ end |- _ => destruct x eqn:?
  | p : _ * _ |- _ => destruct p
  | u : unit |- _ => destruct u
  | H : _ /\ _ |- _ => destruct H
  | H : (_ <=? _) = true |- _ => apply Z.leb_le in H
  | H : (_ <=? _) = false |- _ => apply Z.leb_gt in H
  | _ => run_fn
  end.

Ltac runs :=
  repeat (first [ progress simplify_eq
                | progress cbv beta iota zeta in *
                | run_step ]).

(** The request is still on the heap. *)
Ltac heap_ok :=
  repeat match goal with H : heap _ = _ |- _ => rewrite H end;
  rewrite ?lookup_insert_eq;
  first [ done | by eexists
        | match goal with H : heap _ !! _ = _ |- _ => by rewrite H end ].

(** ** The hook chains *)

Lemma runRequestHooks_run k hooks rq : forall i s o s' evs,
  runRequestHooks k i hooks rq s = (o, s', evs) ->
  exists n,
    (o = Done None /\ n = length hooks /\ evs = oks k i n)
    \/ (exists e, o = Done (Some e) /\ (n < length hooks)%nat /\
                  evs = oks k i n ++ [EvHook k (i + n) (Some e)]).
Proof.
  induction hooks as [|hook hooks IH]; intros i s o s' evs H; simpl in H.
  - runs. exists 0%nat. by left.
  - unfold callHook in H. runs.
    + exists 0%nat. right. eexists.
      rewrite Nat.add_0_r. split_and!; [done | simpl; lia | done].
    + apply IH in H as [n [(-> & Hn & ->) | (e & -> & Hn & ->)]].
      * exists (S n). left. split_and!; [done | simpl; lia | done].
      * exists (S n). right. exists e.
        split_and!; [done | simpl; lia |].
        by rewrite Nat.add_succ_r.
Qed.

Lemma runResponseHooks_run hooks rep : forall i s o s' evs,
  runResponseHooks i hooks rep s = (o, s', evs) ->
  exists n,
    (o = Done None /\ n = length hooks /\ evs = oks OnResponse i n)
    \/ (exists e, o = Done (Some e) /\ (n < length hooks)%nat /\
                  evs = oks OnResponse i n
                        ++ [EvHook OnResponse (i + n) (Some e);
                            EvLog "hook(c, resp)" e]).
Proof.
  induction hooks as [|hook hooks IH]; intros i s o s' evs H; simpl in H.
  - runs. exists 0%nat. by left.
  - unfold callResponseHook in H. runs.
    + exists 0%nat. right. eexists.
      rewrite Nat.add_0_r. split_and!; [done | simpl; lia | done].
    + apply IH in H as [n [(-> & Hn & ->) | (e & -> & Hn & ->)]].
      * exists (S n). left. split_and!; [done | simpl; lia | done].
      * exists (S n). right. exists e.
        split_and!; [done | simpl; lia |].
        by rewrite Nat.add_succ_r.
Qed.

Lemma runRetryHooks_run hooks resp err : forall i s o s' evs,
  runRetryHooks i hooks resp err s = (o, s', evs) ->
  exists n (v : bool),
    o = Done v /\ evs = ballots resp err i n v /\
    (if v then (n < length hooks)%nat else n = length hooks).
Proof.
  induction hooks as [|hook hooks IH]; intros i s o s' evs H; simpl in H.
  - runs. by exists 0%nat, false.
  - unfold callRetryHook in H. runs.
    + exists 0%nat, true.
      unfold ballots. rewrite Nat.add_0_r. split_and!; [done | done | simpl; lia].
    + apply IH in H as (n & v & -> & -> & Hn).
      exists (S n), v. split_and!; [done | |].
      * unfold ballots. simpl. by rewrite Nat.add_succ_r.
      * destruct v; simpl; lia.
Qed.

(** ** The parts of a pass *)

Lemma callReqBody_run rq s o s' evs :
  callReqBody rq s = (o, s', evs) ->
  s' = s /\
  match heap s !! rq with
  | Some r => o = Done (ReqBody r) /\ evs = [EvReqBody (ReqBody r).2]
  | None => o = Panic /\ evs = []
  end.
Proof.
  unfold callReqBody. intros H. runs; by simplify_option_eq.
Qed.

Ltac run_fn ::=
  match goal with
  | H : callReqBody _ _ = _ |- _ => apply callReqBody_run in H as (? & ?)
  | H : (_, _) = ReqBody _ |- _ => symmetry in H; rewrite ?H in *
  end.

Lemma rewindBody_run rq count s o s' evs :
  rewindBody rq count s = (o, s', evs) ->
  is_Some (heap s !! rq) ->
  (exists e, 1 <= count /\ o = Done (Some e) /\ evs = [EvReqBody (Some e)])
  \/ (1 <= count /\ o = Panic /\ evs = [EvReqBody None])
  \/ (o = Done None /\ evs = rewound count /\ is_Some (heap s' !! rq)).
Proof.
  unfold rewindBody. intros H [r Hr]. runs; unfold rewound.
  all: try (case_match; [|lia]).
  - left. by eexists.
  - right; right. split_and!; [done..|].
    match goal with H : heap _ = _ |- _ => rewrite H end.
    by rewrite lookup_insert_eq.
  - right; by left.
  - case_match; [lia|]. right; right. by rewrite Hr.
Qed.

Lemma clientDo_run c rq s o s' evs :
  clientDo c rq s = (o, s', evs) ->
  is_Some (heap s !! rq) ->
  (o = Panic /\ evs = [])
  \/ (exists raw rsp err,
        o = Done (rsp, err) /\ evs = [EvTransport raw rsp err] /\
        is_Some (heap s' !! rq)).
Proof.
  unfold clientDo. intros H [r Hr]. runs; try by left.
  right. destruct (client _ _ _).1 as [rsp err] eqn:Hres.
  eexists _, rsp, err. split_and!; [done..|heap_ok].
Qed.

Lemma exchange_run c rq cb s o s' evs :
  exchange c rq cb s = (o, s', evs) ->
  is_Some (heap s !! rq) ->
  (o = Panic /\ evs = match cb with Some _ => [EvExecute context_TODO] | None => [] end)
  \/ (exists rsp err fb,
        o = Done (rsp, err, fb) /\ exchanged cb rsp err fb evs /\
        is_Some (heap s' !! rq)).
Proof.
  unfold exchange, Execute. intros H Hr.
  destruct cb as [cb|]; runs;
    repeat match goal with
      | H : clientDo _ _ _ = _ |- _ =>
          apply clientDo_run in H as [[??]|(? & ? & ? & ? & ? & ?)];
          [| |heap_ok]
      end; runs; try by left.
  - right. eexists _, _, _. split_and!; [done| |heap_ok].
    by apply (exchanged_guarded _ _ _ (Some _)).
  - right. eexists _, _, _. split_and!; [done| |heap_ok].
    by apply (exchanged_guarded _ _ _ None).
  - right. eexists _, _, _. split_and!; [done| |heap_ok].
    by apply exchanged_rejected.
  - right. eexists _, _, _. split_and!; [done| |heap_ok].
    by apply exchanged_direct.
Qed.

Lemma stamp_run rq s o s' evs :
  stamp time_Now rq s = (o, s', evs) ->
  is_Some (heap s !! rq) ->
  o = Done tt /\ evs = [].
Proof.
  unfold stamp. intros H [r Hr]. by runs.
Qed.

Lemma buildResponse_run rq rsp err s o s' evs :
  buildResponse rq rsp err s = (o, s', evs) ->
  (exists raw e,
      rsp = Some raw /\ rc_readErr (Body raw) = Some e /\ o = Done (inr e) /\
      evs = [EvReadAll (Some e); EvLog "ioutil.ReadAll(rawResponse.Body)" e])
  \/ (exists raw e,
        rsp = Some raw /\ rc_readErr (Body raw) = None /\
        rc_closeErr (Body raw) = Some e /\ o = Done (inr e) /\
        evs = [EvReadAll None; EvClose (Some e);
               EvLog "rawResponse.Body.Close()" e])
  \/ (readable rsp /\
      o = Done (inl (response_of rq rsp, err_after rsp err)) /\
      evs = read_calls rsp).
Proof.
  unfold buildResponse, ioutil_ReadAll, Close. intros H.
  destruct rsp as [raw|]; runs.
  - left. by eexists _, _.
  - right; left. by eexists _, _.
  - by right; right.
  - by right; right.
Qed.

Lemma tripped_run fb (cb : option (Circuit World)) s o s' evs :
  tripped fb cb s = (o, s', evs) ->
  (fb = true -> is_Some cb) ->
  exists open : bool,
    o = Done open /\ evs = (if fb then [EvIsOpen open] else []) /\
    (fb = false -> open = false).
Proof.
  unfold tripped, callIsOpen. intros H Hcb. destruct fb.
  - destruct Hcb as [b ->]; [done|]. runs. by eexists.
  - runs; by exists false.
Qed.

Lemma exchanged_fallback (cb : option (Circuit World)) rsp err X :
  exchanged cb rsp err true X -> is_Some cb.
Proof. by inversion 1. Qed.

Lemma resolve_eq c r :
  (if (0 <? String.length (circuitName r))%nat
   then GetCircuit c (circuitName r)
   else GetCircuit c (defaultCircuitName c))
  = GetCircuit c (resolve c r).
Proof.
  unfold resolve. destruct (circuitName r); by case_decide.
Qed.

Ltac run_fn ::=
  match goal with
  | H : callReqBody _ _ = _ |- _ => apply callReqBody_run in H as (? & ?)
  | H : (_, _) = ReqBody _ |- _ => symmetry in H; rewrite ?H in *
  | H : GetCircuit _ _ _ = _ |- _ => unfold GetCircuit in H
  | H : rewindBody _ _ _ = _ |- _ =>
      apply rewindBody_run in H as [(? & ? & ? & ?)|[(? & ? & ?)|(? & ? & ?)]];
      [| | |heap_ok]
  | H : exchange _ _ _ _ = _ |- _ =>
      apply exchange_run in H as [(? & ?)|(? & ? & ? & ? & ? & ?)];
      [| |heap_ok]
  | H : stamp _ _ _ = _ |- _ => apply stamp_run in H as (? & ?); [|heap_ok]
  | H : buildResponse _ _ _ _ = _ |- _ =>
      apply buildResponse_run in H
          as [(? & ? & ? & ? & ? & ?)
             |[(? & ? & ? & ? & ? & ? & ?)|(? & ? & ?)]]
  | H : tripped _ _ _ = _ |- _ =>
      apply tripped_run in H as (? & ? & ? & ?);
      [|solve [intros ->; eauto using exchanged_fallback]]
  | H : runRetryHooks _ _ _ _ _ = _ |- _ =>
      apply runRetryHooks_run in H as (? & ? & ? & ? & ?)
  end.

(** ** One pass through the loop *)

Lemma attempt_pass c rq count s o s' evs :
  attempt time_Now c rq count s = (o, s', evs) ->
  match heap s !! rq with
  | Some r => pass c rq count (resolve c r) o evs
  | None => o = Panic /\ evs = []
  end.
Proof.
  unfold attempt. intros H.
  apply bind_inv in H as [(r & ? & ? & ? & Hr & H & ->) | [[Hr ->] | [Hr ->]]];
    apply deref_inv in Hr as (-> & -> & Hr);
    destruct (heap s !! rq) as [r'|] eqn:Hs; simplify_eq; [|done].
  rewrite resolve_eq in H. cbv beta in H. runs.
  all: fold (registered c (resolve c r')); rewrite ?app_nil_r; simpl;
    rewrite ?app_nil_r.
  all: try match goal with
         | H : ?b = false -> _ = _ |- context [if ?b then _ else _] =>
             destruct b; [|by specialize (H eq_refl)]
         end.
  all: try (by constructor).
  all: try (by eapply pass_tripped).
  all: try (by eapply pass_read_failed).
  all: try (by eapply pass_close_failed).
  - eapply pass_retry; [done..|].
    unfold decision. rewrite (proj2 (Z.leb_le _ _)) by done.
    by match goal with H : stg c = _ |- _ => rewrite H end.
  - eapply (pass_last _ _ _ _ _ _ _ _ _ true); [done..|].
    unfold decision. rewrite (proj2 (Z.leb_le _ _)) by done.
    by match goal with H : stg c = _ |- _ => rewrite H end.
  - eapply (pass_last _ _ _ _ _ _ _ _ _ true); [done..|].
    unfold decision. by rewrite (proj2 (Z.leb_gt _ _)) by done.
  - unfold registered. destruct (h c !! _) eqn:Hcb.
    + rewrite bool_decide_eq_true_2 by done.
      generalize (pass_no_raw_request c rq count (resolve c r')).
      unfold registered. rewrite Hcb.
      by rewrite bool_decide_eq_true_2 by done.
    + rewrite bool_decide_eq_false_2 by (by intros [??]).
      generalize (pass_no_raw_request c rq count (resolve c r')).
      unfold registered. rewrite Hcb.
      by rewrite bool_decide_eq_false_2 by (by intros [??]).
Qed.

(** ** The loop and the whole call *)

Lemma genReply_exit_run err resp s :
  genReply_exit err resp s = (Done (exit_value err resp), s, exit_calls err).
Proof. by destruct err. Qed.

Lemma genReply_loop_passes c rq fuel : forall count err resp s o s' evs,
  genReply_loop time_Now fuel c rq count err resp s = (o, s', evs) ->
  passes c rq fuel count err resp o evs.
Proof.
  induction fuel as [|fuel IH]; intros count err resp s o s' evs H; simpl in H.
  { unfold out_of_fuel in H. simplify_eq. constructor. }
  destruct (retry c <? count) eqn:Hc.
  { rewrite genReply_exit_run in H. simplify_eq.
    apply passes_over. by apply Z.ltb_lt. }
  apply Z.ltb_ge in Hc.
  apply bind_inv in H as [(ctl & s1 & e1 & e2 & Ha & H & ->) | [[Ha ->] | [Ha ->]]];
    apply attempt_pass in Ha; destruct (heap s !! rq) as [r|];
    try (destruct Ha as [? ->]; simplify_eq).
  - destruct ctl as [count' err' resp'|err' resp'|rep e].
    + eapply passes_continue; eauto.
    + rewrite genReply_exit_run in H. simplify_eq.
      eapply passes_break; eauto.
    + apply ret_inv in H as (-> & _ & ->). rewrite app_nil_r.
      eapply passes_return; eauto.
  - eapply passes_panic; eauto.
  - by apply passes_nil.
  - inversion Ha.
Qed.

Lemma setup_app c ctx evs :
  EvReqBody None
    :: oks BeforeRequest 0 (length (beforeRequestHooks c))
    ++ EvNewRequest ctx None
    :: oks OnRequest 0 (length (requestHooks c)) ++ evs
  = setup c ctx ++ evs.
Proof. unfold setup. simpl. by rewrite <- !app_assoc. Qed.

Lemma Do_conducted fuel c ctx rq s o s' evs :
  Do time_Now validMethod url_Parse fuel c ctx rq s = (o, s', evs) ->
  conducted fuel c ctx rq o evs.
Proof.
  unfold Do, genReply. intros H.
  repeat (first
    [ progress runs
    | match goal with
      | H : runRequestHooks _ _ _ _ _ = _ |- _ =>
          apply runRequestHooks_run in H
              as [? [(? & ? & ?)|(? & ? & ? & ?)]]
      | H : runResponseHooks _ _ _ _ = _ |- _ =>
          apply runResponseHooks_run in H
              as [? [(? & ? & ?)|(? & ? & ? & ?)]]
      | H : genReply_loop _ _ _ _ _ _ _ _ = _ |- _ =>
          apply genReply_loop_passes in H
      end ]).
  all: rewrite ?app_nil_r; simpl; rewrite ?app_nil_r, ?setup_app.
  all: by econstructor.
Qed.

(** ** Counting calls *)

Lemma count_calls_app f evs1 evs2 :
  count_calls f (evs1 ++ evs2) = (count_calls f evs1 + count_calls f evs2)%nat.
Proof. unfold count_calls. by rewrite List.filter_app, length_app. Qed.

Lemma count_calls_cons f e evs :
  count_calls f (e :: evs) = ((if f e then 1 else 0) + count_calls f evs)%nat.
Proof. unfold count_calls. simpl. by destruct (f e). Qed.

Lemma count_calls_none f evs :
  Forall (fun e => f e = false) evs -> count_calls f evs = 0%nat.
Proof.
  induction 1 as [|e evs He _ IH]; [done|].
  by rewrite count_calls_cons, He, IH.
Qed.

Lemma Forall_oks (P : Event -> Prop) k i n :
  (forall j, P (EvHook k j None)) -> Forall P (oks k i n).
Proof. intros HP. unfold oks. apply Forall_map, Forall_forall. eauto. Qed.

Lemma Forall_ballots (P : Event -> Prop) resp err i n v :
  (forall j vote, P (EvRetryHook j resp err vote)) ->
  Forall P (ballots resp err i n v).
Proof.
  intros HP. unfold ballots. apply Forall_app. split.
  - apply Forall_map, Forall_forall. eauto.
  - destruct v; eauto.
Qed.

Lemma Forall_rewound (P : Event -> Prop) count :
  P (EvReqBody None) -> Forall P (rewound count).
Proof. unfold rewound. case_match; eauto. Qed.

Lemma Forall_read_calls (P : Event -> Prop) rsp :
  P (EvReadAll None) -> P (EvClose None) -> Forall P (read_calls rsp).
Proof. destruct rsp; simpl; eauto. Qed.

Lemma Forall_exit_calls (P : Event -> Prop) err :
  (forall e, P (EvLog "c.client.Do" e)) -> Forall P (exit_calls err).
Proof. destruct err; simpl; eauto. Qed.

Lemma Forall_exchanged (P : Event -> Prop) (cb : option (Circuit World))
    rsp err fb X :
  exchanged cb rsp err fb X ->
  P (EvExecute context_TODO) -> (forall raw, P (EvTransport raw rsp err)) ->
  Forall P X.
Proof. destruct 1; eauto. Qed.

Lemma Forall_setup (P : Event -> Prop) c ctx :
  P (EvReqBody None) -> P (EvNewRequest ctx None) ->
  (forall k j, P (EvHook k j None)) ->
  Forall P (setup c ctx).
Proof.
  intros. unfold setup. constructor; [done|].
  rewrite !Forall_app. split_and!; eauto using Forall_oks.
Qed.

(** Counts the calls of kind [f] in a list built from the parts above. *)
Ltac count_parts :=
  unfold transports, attempts;
  repeat (rewrite count_calls_app || rewrite count_calls_cons);
  change (count_calls ?f []) with 0%nat; simpl;
  rewrite ?(count_calls_none _ (oks _ _ _)) by (by apply Forall_oks);
  rewrite ?(count_calls_none _ (ballots _ _ _ _ _)) by (by apply Forall_ballots);
  rewrite ?(count_calls_none _ (rewound _)) by (by apply Forall_rewound);
  rewrite ?(count_calls_none _ (read_calls _)) by (by apply Forall_read_calls);
  rewrite ?(count_calls_none _ (exit_calls _)) by (by apply Forall_exit_calls);
  rewrite ?(count_calls_none _ (setup _ _)) by (by apply Forall_setup).

Lemma exchanged_transports (cb : option (Circuit World)) rsp err fb X :
  exchanged cb rsp err fb X ->
  (transports X <= 1)%nat /\ attempts X = 0%nat.
Proof.
  destruct 1; unfold transports, attempts, count_calls; simpl; split; lia.
Qed.

(** A pass makes at most one transport call, and steps the count once. *)
Lemma pass_counts c rq count name o evs :
  pass c rq count name o evs ->
  (transports evs <= attempts evs <= 1)%nat.
Proof.
  destruct 1;
    repeat match goal with
      | H : exchanged _ _ _ _ _ |- _ => apply exchanged_transports in H as [??]
      end;
    repeat case_match; count_parts;
    unfold transports, attempts in *; lia.
Qed.






(** ** The form of the calls *)

(** Splits a [Forall] over a list built from the parts above. *)
Ltac Forall_parts :=
  repeat first
    [ assumption
    | apply Forall_nil_2
    | apply Forall_oks; intros
    | apply Forall_ballots; intros
    | apply Forall_rewound
    | apply Forall_read_calls
    | apply Forall_exit_calls; intros
    | apply Forall_setup; intros
    | eapply Forall_exchanged; [eassumption| |intros]
    | apply Forall_cons; split
    | apply Forall_app; split
    | progress case_match ].

Lemma pass_calls c rq count name o evs :
  pass c rq count name o evs -> Forall (loop_call rq) evs.
Proof. destruct 1; Forall_parts; simpl; eauto. Qed.

Lemma passes_calls c rq fuel count err resp o evs :
  passes c rq fuel count err resp o evs -> Forall (loop_call rq) evs.
Proof.
  induction 1;
    repeat match goal with
      | H : pass _ _ _ _ _ _ |- _ => apply pass_calls in H
      end;
    Forall_parts; simpl; eauto.
Qed.

Lemma loop_call_Do_call ctx rq evs :
  Forall (loop_call rq) evs -> Forall (Do_call ctx rq) evs.
Proof. intros H. eapply Forall_impl; [done|]. by intros []. Qed.

Lemma conducted_calls fuel c ctx rq o evs :
  conducted fuel c ctx rq o evs -> Forall (Do_call ctx rq) evs.
Proof.
  destruct 1;
    repeat match goal with
      | H : passes _ _ _ _ _ _ _ _ |- _ =>
          apply passes_calls, (loop_call_Do_call ctx) in H
      end;
    Forall_parts; simpl; eauto.
Qed.

(** ** Where a call stops *)

(** A list has one place only where a call of kind [T] stands between
    calls that are not of that kind. *)
Lemma split_unique (T : Event -> bool) l1 f p1 pre e post :
  l1 ++ f :: p1 = pre ++ e :: post ->
  Forall (fun x => T x = false) l1 -> T f = true ->
  Forall (fun x => T x = false) p1 -> T e = true ->
  pre = l1 /\ e = f /\ post = p1.
Proof.
  revert pre. induction l1 as [|x l1 IH]; intros pre Heq Hl1 Hf Hp1 He.
  - destruct pre as [|y pre]; simpl in Heq; simplify_eq; [done|].
    apply Forall_app in Hp1 as [_ Hp1]. apply Forall_cons in Hp1 as [Hp1 _].
    congruence.
  - apply Forall_cons in Hl1 as [Hx Hl1].
    destruct pre as [|y pre]; simpl in Heq; simplify_eq; [congruence|].
    destruct (IH pre) as (-> & -> & ->); done.
Qed.

Lemma no_split (T : Event -> bool) evs pre e post :
  evs = pre ++ e :: post -> Forall (fun x => T x = false) evs ->
  T e = true -> False.
Proof.
  intros -> H He. apply Forall_app in H as [_ H].
  apply Forall_cons in H as [H _]. congruence.
Qed.

Lemma stopped_unique T evs l1 f p1 pre e post :
  stopped T evs l1 f p1 -> evs = pre ++ e :: post -> T e = true ->
  pre = l1 /\ e = f /\ post = p1.
Proof.
  intros (-> & Hl1 & Hf & Hp1) Heq He. by eapply split_unique.
Qed.

Lemma stopped_app_l T l0 evs l1 f post :
  clean T l0 -> stopped T evs l1 f post ->
  stopped T (l0 ++ evs) (l0 ++ l1) f post.
Proof.
  intros H0 (-> & Hl1 & Hf & Hp). split_and!; [|by apply Forall_app|done..].
  by rewrite <- app_assoc.
Qed.

Lemma stopped_app_r T evs l1 f post l2 :
  stopped T evs l1 f post -> clean T l2 ->
  stopped T (evs ++ l2) l1 f (post ++ l2).
Proof.
  intros (-> & Hl1 & Hf & Hp) H2. split_and!; [|done..|by apply Forall_app].
  by rewrite <- app_assoc.
Qed.

Lemma loop_call_clean T rq evs :
  Forall (loop_call rq) evs ->
  (forall e, loop_call rq e -> T e = false) ->
  clean T evs.
Proof. intros H HT. eapply Forall_impl; [done|]. eauto. Qed.

(** *** The hooks that ran *)

Lemma hooks_run_app k evs1 evs2 :
  hooks_run k (evs1 ++ evs2) = hooks_run k evs1 ++ hooks_run k evs2.
Proof. apply omap_app. Qed.

Lemma hooks_run_none k evs :
  Forall (fun e => hook_of k e = None) evs -> hooks_run k evs = [].
Proof.
  induction 1 as [|e evs He _ IH]; [done|].
  unfold hooks_run in *. simpl. by rewrite He.
Qed.




(** *** A hook that returns an error *)





(** *** A body that cannot be read or closed *)




Lemma exchanged_split (cb : option (Circuit World)) rsp err fb X :
  exchanged cb rsp err fb X ->
  clean is_transport X
  \/ exists Xpre raw, X = Xpre ++ [EvTransport raw rsp err] /\
                     clean is_transport Xpre.
Proof.
  destruct 1 as [raw rsp err|e|raw rsp err].
  - right. exists [], raw. split; [done|constructor].
  - left. by repeat constructor.
  - right. exists [EvExecute context_TODO], raw. split; [done|].
    by repeat constructor.
Qed.

(** The transport call of a pass is the one its exchange made. *)
Lemma exchanged_unique (cb : option (Circuit World)) rsp0 err0 fb X
    l0 rest pre raw rsp err post :
  exchanged cb rsp0 err0 fb X ->
  l0 ++ X ++ rest = pre ++ EvTransport raw rsp err :: post ->
  clean is_transport l0 -> clean is_transport rest ->
  rsp0 = rsp /\ err0 = err /\ post = rest /\
  exists Xpre, X = Xpre ++ [EvTransport raw rsp err] /\ pre = l0 ++ Xpre /\
               (Xpre = [] /\ cb = None /\ fb = false
                \/ Xpre = [EvExecute context_TODO] /\ is_Some cb /\
                   fb = bool_decide (is_Some err)).
Proof.
  intros HX Hevs Hl0 Hrest.
  assert (clean is_transport X
          \/ exists Xpre raw0, X = Xpre ++ [EvTransport raw0 rsp0 err0] /\
                (Xpre = [] /\ cb = None /\ fb = false
                 \/ Xpre = [EvExecute context_TODO] /\ is_Some cb /\
                    fb = bool_decide (is_Some err0)))
    as [Hc|(Xpre & raw0 & -> & HXpre)].
  { destruct HX as [raw0 rsp0 err0|e|raw0 rsp0 err0].
    - right. exists [], raw0. split; [done|]. by left.
    - left. by repeat constructor.
    - right. exists [EvExecute context_TODO], raw0. split; [done|]. by right. }
  - exfalso. eapply (no_split is_transport); [exact Hevs| |done].
    unfold clean in *. by Forall_parts.
  - rewrite <- app_assoc, app_assoc in Hevs. simpl in Hevs.
    apply (split_unique is_transport) in Hevs as (-> & [= -> -> ->] & ->);
      try done.
    + split_and!; try done. by exists Xpre.
    + unfold clean in *.
      destruct HXpre as [(-> & _)|(-> & _)]; by Forall_parts.
Qed.


(** *** A breaker that says it is open *)

Lemma after_failed_guarded_call_app l0 evs :
  after_failed_guarded_call evs -> after_failed_guarded_call (l0 ++ evs).
Proof.
  intros (l & raw & rsp & e & ->). exists (l0 ++ l), raw, rsp, e.
  by rewrite <- app_assoc.
Qed.

Lemma exchanged_failed (cb : option (Circuit World)) rsp err X :
  exchanged cb rsp err true X ->
  exists raw e, err = Some e /\
                X = [EvExecute context_TODO; EvTransport raw rsp (Some e)].
Proof.
  inversion 1 as [| |raw rsp' err' Hcb Hfb]; subst.
  match goal with
  | H : bool_decide _ = true |- _ => apply bool_decide_eq_true in H as [e ->]
  end.
  by exists raw, e.
Qed.

Lemma pass_open_stop c rq count name o evs :
  pass c rq count name o evs ->
  clean is_open evs
  \/ exists l1,
      stopped is_open evs l1 (EvIsOpen true) [] /\
      after_failed_guarded_call l1 /\
      exists err resp, o = Done (Break err resp).
Proof.
  destruct 1 as [e| | |raw err fb X e HX Hr|raw err fb X e HX Hr Hc
                |rsp err X HX Hr| |].
  all: try (left; unfold clean; Forall_parts; simpl; eauto; fail).
  right. apply exchanged_failed in HX as (raw & e & -> & ->).
  exists (EvGetCircuit name (registered c name) :: rewound count
            ++ [EvExecute context_TODO; EvTransport raw rsp (Some e)]
            ++ read_calls rsp).
  unfold stopped, clean. split_and!.
  - simpl. by rewrite <- !app_assoc.
  - by Forall_parts.
  - done.
  - constructor.
  - by exists (EvGetCircuit name (registered c name) :: rewound count),
      raw, rsp, e.
  - by eexists _, _.
Qed.

Lemma passes_open_stop c rq fuel count err resp o evs :
  passes c rq fuel count err resp o evs ->
  clean is_open evs
  \/ exists l1 post,
      stopped is_open evs l1 (EvIsOpen true) post /\
      after_failed_guarded_call l1 /\
      Forall (fun x => in_loop x = false) post.
Proof.
  induction 1 as [| |? ? ? ? ? ? ? Hp|? ? ? ? ? ? ? ? ? Hp|? ? ? ? ? ? ? ? ? Hp
                 |? ? ? ? ? ? ? ? ? ? ? ? Hp ? IH|];
    try (apply pass_open_stop in Hp
           as [Hp|(l1 & Hp & Hl1 & err0 & resp0 & Ho)]; simplify_eq).
  all: try (left; unfold clean in *; Forall_parts; simpl; eauto; fail).
  - right. eexists l1, _. split_and!; [|done|].
    + apply stopped_app_r; [done|]. unfold clean. by Forall_parts.
    + by Forall_parts.
  - destruct IH as [IH|(l1 & post & IH & Hl1 & Hpost)].
    + left. by apply Forall_app.
    + right. eexists _, post. split_and!; [|by apply after_failed_guarded_call_app|done].
      by apply stopped_app_l.
Qed.

Lemma conducted_open_stop fuel c ctx rq o evs :
  conducted fuel c ctx rq o evs ->
  clean is_open evs
  \/ exists l1 post,
      stopped is_open evs l1 (EvIsOpen true) post /\
      after_failed_guarded_call l1 /\
      Forall (fun x => in_loop x = false) post.
Proof.
  destruct 1 as [|e|n e Hn| |e|n e Hn|L HL|L HL|rep e L HL|rep L n e HL Hn|rep L HL];
    try (apply passes_open_stop in HL
           as [HL|(l1 & post & HL & Hl1 & Hpost)]).
  all: try (left; unfold clean in *; Forall_parts; simpl; eauto; fail).
  all: right.
  1-3: exists (setup c ctx ++ l1), post;
    (split_and!; [|by apply after_failed_guarded_call_app|done]);
    apply stopped_app_l; [by unfold clean; Forall_parts|done].
  - eexists (setup c ctx ++ l1), (post ++ _).
    split_and!; [|by apply after_failed_guarded_call_app|].
    + apply stopped_app_l; [by unfold clean; Forall_parts|].
      apply stopped_app_r; [done|]. unfold clean. by Forall_parts.
    + by Forall_parts.
  - eexists (setup c ctx ++ l1), (post ++ _).
    split_and!; [|by apply after_failed_guarded_call_app|].
    + apply stopped_app_l; [by unfold clean; Forall_parts|].
      apply stopped_app_r; [done|]. unfold clean. by Forall_parts.
    + by Forall_parts.
Qed.

Lemma pass_starts_unguarded name found count pre ctx :
  pre ++ [EvExecute ctx] = EvGetCircuit name found :: rewound count -> False.
Proof.
  intros H. apply (f_equal last) in H. rewrite last_snoc in H.
  unfold rewound in H. by case_match.
Qed.

(** After a transport call that failed under the guard, the breaker is
    asked, and the pass ends there if it says it is open. *)
Lemma pass_asks_breaker c rq count name o evs pre raw rsp e post :
  pass c rq count name o evs ->
  evs = pre ++ EvExecute context_TODO :: EvTransport raw rsp (Some e) :: post ->
  readable rsp ->
  exists (open : bool) post',
    post = read_calls rsp ++ EvIsOpen open :: post' /\
    (open = true -> post' = [] /\ exists err resp, o = Done (Break err resp)).
Proof.
  intros Hp Hevs Hread.
  assert (evs = (pre ++ [EvExecute context_TODO])
                ++ EvTransport raw rsp (Some e) :: post) as Hevs'
    by (by rewrite <- app_assoc).
  clear Hevs.
  destruct Hp as [e0| | |raw0 err0 fb X e0 HX Hr|raw0 err0 fb X e0 HX Hr Hc
                 |rsp0 err0 X HX Hr|rsp0 err0 fb X n d HX Hr Hn Hd
                 |rsp0 err0 fb X n v HX Hr Hn Hd].
  all: try (exfalso; eapply (no_split is_transport); [exact Hevs'| |done];
            unfold clean; Forall_parts; simpl; eauto; fail).
  all: destruct (exchanged_unique _ _ _ _ _
                   (EvGetCircuit name (registered c name) :: rewound count)
                   _ _ _ _ _ _ HX Hevs')
         as (? & ? & -> & Xpre & -> & Hpre & [(-> & _)|(-> & _ & Hfb)]);
    [by unfold clean; Forall_parts|by unfold clean; Forall_parts| |];
    subst;
    try (rewrite app_nil_r in Hpre;
         by destruct (pass_starts_unguarded _ _ _ _ _ Hpre)).
  all: try (simpl in Hread; destruct Hread; congruence).
  all: rewrite ?bool_decide_eq_true_2 by eauto.
  - exists true, []. split; [done|]. intros _. split; [done|]. by eexists _, _.
  - eexists false, _. by split.
  - eexists false, _. by split.
Qed.

(** *** The votes and the rhythm of the loop *)















(** *** The breaker of a pass *)

Lemma exchanged_unguarded rsp err fb X :
  exchanged (World := World) None rsp err fb X ->
  fb = false /\ exists raw, X = [EvTransport raw rsp err].
Proof.
  inversion 1 as [raw ? ? _|e [? [=]]|raw ? ? [? [=]]]. split; [done|].
  by exists raw.
Qed.

Lemma pass_resolution c rq count name o evs :
  pass c rq count name o evs ->
  exists rest,
    evs = EvGetCircuit name (registered c name) :: rest /\
    attempts rest = 0%nat /\
    (h c !! name = None ->
     clean is_execute rest /\
     (transports rest = 1%nat \/ o = Panic
      \/ exists e, o = Done (Return None (Some e)) /\
                   rest = [EvReqBody (Some e)])) /\
    (is_Some (h c !! name) ->
     forall pre raw rsp err post,
       rest = pre ++ EvTransport raw rsp err :: post ->
       exists pre', pre = pre' ++ [EvExecute context_TODO]).
Proof.
  intros Hp.
  destruct Hp as [e| | |raw err fb X e HX Hr|raw err fb X e HX Hr Hc
                 |rsp err X HX Hr|rsp err fb X n d HX Hr Hn Hd
                 |rsp err fb X n v HX Hr Hn Hd].
  all: eexists; (split; [done|]).
  all: split_and!.
  all: try match goal with
         | |- attempts _ = _ =>
             try (apply exchanged_transports in HX as [_ HX]);
             repeat case_match; count_parts; unfold attempts in *; lia
         | |- _ = None -> _ =>
             intros Hcb;
             try (rewrite Hcb in HX;
                  apply exchanged_unguarded in HX as [-> [raw0 ->]]);
             unfold registered; rewrite ?Hcb; simpl;
             (split; [unfold clean; by Forall_parts|]);
             first [ left; by count_parts | right; left; done
                   | right; right; by eexists ]
         | |- is_Some _ -> _ =>
             intros Hcb pre raw1 rsp1 err1 post Hevs;
             first
               [ exfalso; eapply (no_split is_transport);
                 [exact Hevs| |done];
                 unfold clean; Forall_parts; simpl; eauto; fail
               | destruct (exchanged_unique _ _ _ _ _ (rewound count)
                             _ _ _ _ _ _ HX Hevs)
                   as (_ & _ & _ & Xpre & _ & -> & [(_ & Hn' & _)|(-> & _)]);
                 [by unfold clean; Forall_parts|by unfold clean; Forall_parts
                 |rewrite Hn' in Hcb; by destruct Hcb|by eexists] ]
         end.
Qed.

(** *** What the retry hooks are given *)

Lemma pass_votes_after_transport c rq count name o evs pre raw rsp err post :
  pass c rq count name o evs ->
  evs = pre ++ EvTransport raw rsp err :: post ->
  Forall (votes_on (Some (response_of rq rsp)) (err_after rsp err)) evs.
Proof.
  intros Hp Hevs.
  destruct Hp as [e| | |raw0 err0 fb X e HX Hr|raw0 err0 fb X e HX Hr Hc
                 |rsp0 err0 X HX Hr|rsp0 err0 fb X n d HX Hr Hn Hd
                 |rsp0 err0 fb X n v HX Hr Hn Hd].
  all: try (exfalso; eapply (no_split is_transport); [exact Hevs| |done];
            unfold clean; Forall_parts; simpl; eauto; fail).
  all: destruct (exchanged_unique _ _ _ _ _
                   (EvGetCircuit name (registered c name) :: rewound count)
                   _ _ _ _ _ _ HX Hevs) as (? & ? & _ & _);
    [by unfold clean; Forall_parts|by unfold clean; Forall_parts|];
    subst.
  all: Forall_parts; by simpl.
Qed.

(** * The claims *)




(** C7: if the body cannot be materialized at the start of [Do], that
    error is returned at once and nothing else runs: the only calls are
    the one to [ReqBody] and the log line, so no before-request hook, no
    request hook, no construction of the transport request, no transport
    attempt and no response hook; the store is left as it was. *)
Theorem C7_body_error_fails_fast fuel c ctx rq s r e :
  heap s !! rq = Some r ->
  (ReqBody r).2 = Some e ->
  Do time_Now validMethod url_Parse fuel c ctx rq s
  = (Done (None, Some e), s,
     [EvReqBody (Some e); EvLog "request.reqBody" e]).
Proof.
  intros Hr He. unfold Do, callReqBody, bind, deref. rewrite Hr. simpl.
  destruct (ReqBody r) as [b err]. simpl in He. by subst err.
Qed.

(** Every call of [Do] enters the breaker with [context.TODO()], whatever
    context the caller passed, while the transport request is built with
    the context of the caller. *)
Lemma Do_contexts fuel c ctx rq s :
  Forall (fun e => match e with
                   | EvExecute ctx' => ctx' = context_TODO
                   | EvNewRequest ctx' _ => ctx' = ctx
                   | _ => True
                   end)
    (calls (Do time_Now validMethod url_Parse fuel c ctx rq s)).
Proof.
  destruct (Do _ _ _ _ _ _ _ _) as [[o s'] evs] eqn:Hrun.
  apply Do_conducted, conducted_calls in Hrun.
  eapply Forall_impl; [exact Hrun|]. by intros [].
Qed.

(** C10: every retry hook, on every attempt, is invoked with a non-nil
    [Response] whose back-reference is the request of the call, and when
    that [Response] has no raw response its body is unset and its status
    code is zero; in an attempt whose transport call failed without a raw
    response, that is the [Response] every retry hook gets, together with
    the error of the transport call. *)
Theorem C10_retry_hooks_get_a_response fuel c ctx rq s :
  Forall (retry_argument_ok rq)
    (calls (Do time_Now validMethod url_Parse fuel c ctx rq s)) /\
  (forall count s1 pre raw err post i resp err' vote,
      calls (attempt time_Now c rq count s1)
      = pre ++ EvTransport raw None err :: post ->
      In (EvRetryHook i resp err' vote) post ->
      resp = Some {| request := rq; rawResponse := None;
                     body := None; statusCode := 0 |} /\
      err' = err).
Proof.
  split.
  - destruct (Do _ _ _ _ _ _ _ _) as [[o s'] evs] eqn:Hrun.
    apply Do_conducted, conducted_calls in Hrun.
    eapply Forall_impl; [exact Hrun|].
    intros [] He; try done. simpl in He. destruct He as [rsp ->].
    exists (response_of rq rsp). split; [done|]. by destruct rsp.
  - intros count s1 pre raw err post i resp err' vote Hevs Hin.
    destruct (attempt _ _ _ _ _) as [[o s'] evs] eqn:Hrun.
    unfold calls in Hevs. simpl in Hevs.
    apply attempt_pass in Hrun. destruct (heap s1 !! rq) as [r1|]; cycle 1.
    { destruct Hrun as [_ ->]. by destruct pre. }
    pose proof (pass_votes_after_transport _ _ _ _ _ _ _ _ _ _ _ Hrun Hevs)
      as Hvotes.
    rewrite Hevs in Hvotes.
    apply Forall_app in Hvotes as [_ Hvotes].
    apply Forall_cons in Hvotes as [_ Hvotes].
    rewrite Forall_forall in Hvotes.
    apply (Hvotes (EvRetryHook i resp err' vote)).
    by apply list_elem_of_In.
Qed.

(** C2, as amended: when the transport call of an attempt failed under
    the guard of the resolved breaker, and the body of a response it may
    have left could be read, the breaker is asked whether it is open; if
    it says so, the attempt ends there and no further attempt occurs: after
    it [Do] makes no call from the loop any more (no transport call, no
    retry hook, no sleep), whatever retry budget is left and whatever the
    retry hooks would vote.  The breaker is asked in no other place: what
    precedes its saying it is open is a guarded transport call that
    failed. *)
Theorem C2_open_breaker_after_failed_call_stops fuel c ctx rq s :
  let r := Do time_Now validMethod url_Parse fuel c ctx rq s in
  (forall pre post,
      calls r = pre ++ EvIsOpen true :: post ->
      Forall (fun x => in_loop x = false) post /\
      after_failed_guarded_call pre) /\
  (forall count s1 pre raw rsp e post,
      let a := attempt time_Now c rq count s1 in
      calls a = pre ++ EvExecute context_TODO
                    :: EvTransport raw rsp (Some e) :: post ->
      readable rsp ->
      exists (open : bool) post',
        post = read_calls rsp ++ EvIsOpen open :: post' /\
        (open = true ->
         post' = [] /\ exists err resp, outcome a = Done (Break err resp))) /\
  (forall cb s1,
      callIsOpen cb s1
      = (Done (IsOpen cb (world s1)), s1, [EvIsOpen (IsOpen cb (world s1))])).
Proof.
  intros r. subst r. split_and!.
  - destruct (Do _ _ _ _ _ _ _ _) as [[o s'] evs] eqn:Hrun.
    unfold calls. simpl. intros pre post Hevs.
    apply Do_conducted, conducted_open_stop in Hrun
      as [Hclean|(l1 & p1 & Hstop & Hl1 & Hpost)].
    { by destruct (no_split is_open _ _ _ _ Hevs Hclean). }
    by destruct (stopped_unique _ _ _ _ _ _ _ _ Hstop Hevs) as (-> & _ & ->).
  - intros count s1 pre raw rsp e post a. subst a.
    destruct (attempt _ _ _ _ _) as [[o s'] evs] eqn:Hrun.
    unfold calls, outcome. simpl. intros Hevs Hread.
    apply attempt_pass in Hrun. destruct (heap s1 !! rq) as [r1|]; cycle 1.
    { destruct Hrun as [_ ->]. by destruct pre. }
    by eapply pass_asks_breaker.
  - by intros cb [].
Qed.


(** C5: on every attempt, the breaker is looked up under the circuit name
    of the request when that is not empty and under the default circuit
    name of the client otherwise, once, before anything else; if no breaker
    is registered under that name, the pass never enters a breaker and
    makes its transport call directly (unless it ended before reaching
    it, on a body that cannot be materialized again or a missing transport
    request); with a breaker registered, the transport call is made inside
    [Execute]. *)
Theorem C5_breaker_resolution c rq count s r :
  heap s !! rq = Some r ->
  let a := attempt time_Now c rq count s in
  let name := if decide (circuitName r = ""%string)
              then defaultCircuitName c else circuitName r in
  exists rest,
    calls a = EvGetCircuit name (bool_decide (is_Some (h c !! name))) :: rest /\
    attempts rest = 0%nat /\
    (h c !! name = None ->
     clean is_execute rest /\
     (transports rest = 1%nat \/ outcome a = Panic
      \/ exists e, outcome a = Done (Return None (Some e)) /\
                   rest = [EvReqBody (Some e)])) /\
    (is_Some (h c !! name) ->
     forall pre raw rsp err post,
       rest = pre ++ EvTransport raw rsp err :: post ->
       exists pre', pre = pre' ++ [EvExecute context_TODO]).
Proof.
  intros Hr a name. subst a.
  destruct (attempt _ _ _ _ _) as [[o s'] evs] eqn:Hrun.
  apply attempt_pass in Hrun. rewrite Hr in Hrun.
  by apply pass_resolution in Hrun.
Qed.


(** * More of the engine *)

(** ** What [Do] logs *)

Lemma pass_log_stop c rq count name o evs :
  pass c rq count name o evs ->
  clean is_log evs
  \/ exists l1 msg e,
      stopped is_log evs l1 (EvLog msg e) [] /\
      o = Done (Return None (Some e)).
Proof.
  destruct 1 as [e| | |raw err fb X e HX Hr|raw err fb X e HX Hr Hc| | |].
  all: try (left; unfold clean; Forall_parts; simpl; eauto; fail).
  - right. eexists (_ :: rewound count ++ X ++ [EvReadAll (Some e)]), _, e.
    unfold stopped, clean.
    split_and!;
      [simpl; by rewrite <- !app_assoc|by Forall_parts|done
      |by repeat constructor|done..].
  - right.
    eexists (_ :: rewound count ++ X ++ [EvReadAll None; EvClose (Some e)]), _, e.
    unfold stopped, clean.
    split_and!;
      [simpl; by rewrite <- !app_assoc|by Forall_parts|done
      |by repeat constructor|done..].
Qed.

Lemma exit_calls_log_stop err resp :
  clean is_log (exit_calls err)
  \/ exists l1 msg e,
      stopped is_log (exit_calls err) l1 (EvLog msg e) [] /\
      @Done (option Response * option error) (exit_value err resp)
      = Done (None, Some e).
Proof.
  destruct err as [e|]; [right|left; by constructor].
  exists [], "c.client.Do"%string, e. unfold stopped, clean. by split_and!.
Qed.

Lemma passes_log_stop c rq fuel count err resp o evs :
  passes c rq fuel count err resp o evs ->
  clean is_log evs
  \/ exists l1 msg e,
      stopped is_log evs l1 (EvLog msg e) [] /\ o = Done (None, Some e).
Proof.
  induction 1 as [|? ? err0 resp0|? ? ? ? ? ? ? Hp|? ? ? ? ? ? ? ? ? Hp
                 |? ? ? ? ? err' resp' ? ? Hp
                 |? ? ? ? ? ? ? ? ? ? ? ? Hp ? IH|];
    try (apply pass_log_stop in Hp
           as [Hp|(l1 & msg & e' & Hp & Ho)]; simplify_eq).
  all: try (left; unfold clean in *; Forall_parts; simpl; eauto; fail).
  - apply exit_calls_log_stop.
  - right. by eexists _, _, _.
  - destruct (exit_calls_log_stop err' resp') as [Hx|(l1 & msg & e & Hx & Ho)].
    + left. by apply Forall_app.
    + right. eexists _, _, _. split; [|done].
      by apply stopped_app_l.
  - destruct IH as [IH|(l1 & msg & e & IH & ->)].
    + left. by apply Forall_app.
    + right. eexists _, _, _. split; [|done]. by apply stopped_app_l.
Qed.

Lemma conducted_log_stop fuel c ctx rq o evs :
  conducted fuel c ctx rq o evs ->
  clean is_log evs
  \/ exists l1 msg e,
      stopped is_log evs l1 (EvLog msg e) [] /\ o = Done (None, Some e).
Proof.
  destruct 1 as [|e|n e Hn| |e|n e Hn|L HL|L HL|rep e L HL|rep L n e HL Hn|rep L HL];
    try (apply passes_log_stop in HL
           as [HL|(l1 & msg & e' & HL & Ho)]; simplify_eq).
  all: try (left; unfold clean in *; Forall_parts; simpl; eauto; fail).
  - right. exists [EvReqBody (Some e)], "request.reqBody"%string, e.
    unfold stopped, clean. split_and!; try done. by repeat constructor.
  - right. eexists (_ :: oks _ _ _ ++ [_]), "http.NewRequest"%string, e.
    unfold stopped, clean.
    split_and!; [simpl; by rewrite <- !app_assoc|by Forall_parts|done..].
  - right. eexists _, _, _. split; [|done].
    apply stopped_app_l; [|done]. unfold clean. by Forall_parts.
  - right. eexists (setup c ctx ++ L ++ oks _ _ _ ++ [_]), "hook(c, resp)"%string, e.
    unfold stopped, clean in *.
    split_and!; [by rewrite <- !app_assoc|by Forall_parts|done..].
Qed.

(** [Do] writes at most one line to the log: it is the last call [Do]
    makes, and its error is the error [Do] returns. *)
Theorem Do_logs_once_and_last fuel c ctx rq s pre msg e post :
  let r := Do time_Now validMethod url_Parse fuel c ctx rq s in
  calls r = pre ++ EvLog msg e :: post ->
  post = [] /\ clean is_log pre /\ outcome r = Done (None, Some e).
Proof.
  intros r Hsplit. subst r.
  destruct (Do _ _ _ _ _ _ _ _) as [[o s'] evs] eqn:Hrun.
  unfold calls, outcome in *. simpl in *.
  apply Do_conducted, conducted_log_stop in Hrun
    as [Hclean|(l1 & msg' & e' & Hstop & ->)].
  - exfalso. by eapply (no_split is_log).
  - destruct (stopped_unique _ _ _ _ _ _ _ _ Hstop Hsplit eq_refl)
      as (-> & ? & ->).
    simplify_eq. by destruct Hstop as (_ & ? & _).
Qed.

(** ** A body that cannot be materialized *)

Lemma pass_body_stop c rq count name o evs :
  pass c rq count name o evs ->
  clean is_body_failure evs
  \/ exists e,
      1 <= count /\
      evs = [EvGetCircuit name (registered c name); EvReqBody (Some e)] /\
      o = Done (Return None (Some e)).
Proof.
  destruct 1 as [e| | | | | | |].
  all: try (left; unfold clean; Forall_parts; simpl; eauto; fail).
  right. by exists e.
Qed.

Lemma passes_body_stop c rq fuel count err resp o evs :
  passes c rq fuel count err resp o evs ->
  clean is_body_failure evs
  \/ exists l1 name found e,
      stopped is_body_failure evs (l1 ++ [EvGetCircuit name found])
        (EvReqBody (Some e)) [] /\
      o = Done (None, Some e) /\
      (count < 1 -> (1 <= attempts l1)%nat).
Proof.
  induction 1 as [| |? ? ? ? ? ? ? Hp|? ? ? ? ? ? ? ? ? Hp|? ? ? ? ? ? ? ? ? Hp
                 |? ? ? ? ? ? ? ? ? ? ? ? Hp ? IH|];
    try (pose proof (pass_counts _ _ _ _ _ _ Hp) as Hcounts;
         pose proof Hp as Hp';
         apply pass_body_stop in Hp
           as [Hp|(e' & Hc & Hp & Ho)]; simplify_eq).
  all: try (left; unfold clean in *; Forall_parts; simpl; eauto; fail).
  - right. eexists [], _, _, _. unfold stopped, clean.
    split_and!; try done; [by repeat constructor|lia].
  - destruct IH as [IH|(l1 & name' & found & e & IH & -> & Hl1)].
    + left. by apply Forall_app.
    + right. exists (evs ++ l1), name', found, e. split_and!; [|done|].
      * rewrite <- app_assoc. by apply stopped_app_l.
      * intros _. unfold attempts in *. rewrite count_calls_app.
        apply pass_resolution in Hp' as (rest & -> & Hrest & _).
        rewrite count_calls_cons. simpl. lia.
Qed.

Lemma conducted_body_stop fuel c ctx rq o evs :
  conducted fuel c ctx rq o evs ->
  clean is_body_failure evs
  \/ exists l1 e post,
      stopped is_body_failure evs l1 (EvReqBody (Some e)) post /\
      o = Done (None, Some e) /\
      (l1 = [] /\ post = [EvLog "request.reqBody" e]
       \/ post = [] /\ (2 <= attempts l1)%nat /\
          exists l0 name found, l1 = l0 ++ [EvGetCircuit name found]).
Proof.
  destruct 1 as [|e|n e Hn| |e|n e Hn|L HL|L HL|rep e L HL|rep L n e HL Hn|rep L HL];
    try (apply passes_body_stop in HL
           as [HL|(l1 & name & found & e' & HL & Ho & Hl1)]; simplify_eq).
  all: try (left; unfold clean in *; Forall_parts; simpl; eauto; fail).
  - right. exists [], e, [EvLog "request.reqBody" e].
    unfold stopped, clean. split_and!; try done; [by repeat constructor|by left].
  - right. eexists _, _, _. split_and!; [|done|right].
    + apply stopped_app_l; [|done]. unfold clean. by Forall_parts.
    + split_and!; [done| |by eexists (setup c ctx ++ l1), _, _; rewrite app_assoc].
      unfold attempts in *. rewrite !count_calls_app, count_calls_cons. simpl.
      specialize (Hl1 ltac:(lia)). lia.
Qed.

(** Whenever [ReqBody] fails, [Do] returns its error.  At the start of [Do]
    the log line follows; in the loop, where the body is materialized again
    from the second pass on, nothing follows: the breaker of the pass was
    looked up, but is not entered, the transport is not called and no line
    is logged. *)
Theorem body_error_ends_the_call fuel c ctx rq s pre e post :
  let r := Do time_Now validMethod url_Parse fuel c ctx rq s in
  calls r = pre ++ EvReqBody (Some e) :: post ->
  outcome r = Done (None, Some e) /\
  (pre = [] /\ post = [EvLog "request.reqBody" e]
   \/ post = [] /\ (2 <= attempts pre)%nat /\
      exists pre' name found, pre = pre' ++ [EvGetCircuit name found]).
Proof.
  intros r Hsplit. subst r.
  destruct (Do _ _ _ _ _ _ _ _) as [[o s'] evs] eqn:Hrun.
  unfold calls, outcome in *. simpl in *.
  apply Do_conducted, conducted_body_stop in Hrun
    as [Hclean|(l1 & e' & post' & Hstop & -> & Hshape)].
  - exfalso. by eapply (no_split is_body_failure).
  - destruct (stopped_unique _ _ _ _ _ _ _ _ Hstop Hsplit eq_refl)
      as (-> & ? & ->).
    by simplify_eq.
Qed.

(** ** A transport request that cannot be built *)

Lemma conducted_request_stop fuel c ctx rq o evs :
  conducted fuel c ctx rq o evs ->
  clean is_request_failure evs
  \/ exists e,
      evs = EvReqBody None :: oks BeforeRequest 0 (length (beforeRequestHooks c))
            ++ [EvNewRequest ctx (Some e); EvLog "http.NewRequest" e] /\
      o = Done (None, Some e).
Proof.
  destruct 1 as [|e|n e Hn| |e|n e Hn|L HL|L HL|rep e L HL|rep L n e HL Hn|rep L HL];
    try (apply passes_calls in HL;
         apply (loop_call_clean is_request_failure) in HL; [|by intros []]).
  all: try (left; unfold clean in *; Forall_parts; simpl; eauto; fail).
  right. by exists e.
Qed.

(** When [http.NewRequestWithContext] fails, on the context [Do] was given,
    [Do] logs and returns its error: the before-request hooks all ran and
    passed, no request hook runs and the loop is not entered. *)
Theorem request_error_ends_the_call fuel c ctx rq s pre ctx' e post :
  let r := Do time_Now validMethod url_Parse fuel c ctx rq s in
  calls r = pre ++ EvNewRequest ctx' (Some e) :: post ->
  ctx' = ctx /\
  outcome r = Done (None, Some e) /\
  pre = EvReqBody None :: oks BeforeRequest 0 (length (beforeRequestHooks c)) /\
  post = [EvLog "http.NewRequest" e] /\
  hooks_run OnRequest (calls r) = [] /\
  attempts (calls r) = 0%nat /\ transports (calls r) = 0%nat.
Proof.
  intros r Hsplit. subst r.
  destruct (Do _ _ _ _ _ _ _ _) as [[o s'] evs] eqn:Hrun.
  unfold calls, outcome in *. simpl in *.
  apply Do_conducted, conducted_request_stop in Hrun
    as [Hclean|(e' & Hevs & ->)].
  { exfalso. by eapply (no_split is_request_failure). }
  assert (stopped is_request_failure evs
            (EvReqBody None :: oks BeforeRequest 0 (length (beforeRequestHooks c)))
            (EvNewRequest ctx (Some e')) [EvLog "http.NewRequest" e']) as Hstop.
  { unfold stopped, clean. split_and!; [done|by Forall_parts|done|].
    by repeat constructor. }
  destruct (stopped_unique _ _ _ _ _ _ _ _ Hstop Hsplit eq_refl)
    as (-> & ? & ->).
  simplify_eq. split_and!; try done.
  - rewrite Hsplit.
    change (?a :: ?l ++ ?l') with ((a :: l) ++ l').
    rewrite hooks_run_app. rewrite hooks_run_none; [done|].
    by Forall_parts.
  - rewrite Hsplit. by count_parts.
  - rewrite Hsplit. by count_parts.
Qed.

Lemma Do_new_request fuel c ctx rq s :
  Forall (built_by validMethod url_Parse ctx)
    (calls (Do time_Now validMethod url_Parse fuel c ctx rq s)).
Proof.
  destruct (Do _ _ _ _ _ _ _ _) as [[o s'] evs] eqn:H.
  unfold calls. simpl. unfold Do, genReply in H.
  repeat (first
    [ progress runs
    | match goal with
      | H : runRequestHooks _ _ _ _ _ = _ |- _ =>
          apply runRequestHooks_run in H
              as [? [(? & ? & ?)|(? & ? & ? & ?)]]
      | H : runResponseHooks _ _ _ _ = _ |- _ =>
          apply runResponseHooks_run in H
              as [? [(? & ? & ?)|(? & ? & ? & ?)]]
      | H : genReply_loop _ _ _ _ _ _ _ _ = _ |- _ =>
          apply genReply_loop_passes, passes_calls,
            (Forall_impl _ (built_by validMethod url_Parse ctx)) in H; [|by intros []]
      end ]).
  all: Forall_parts; try done.
  all: simpl; eexists _, _, _;
    match goal with H : http_NewRequestWithContext _ _ _ _ _ _ = _ |- _ =>
      by rewrite H end.
Qed.

Lemma nil_context_is_refused method url body :
  exists e,
    http_NewRequestWithContext validMethod url_Parse context_nil method url body
    = (None, Some e).
Proof.
  unfold http_NewRequestWithContext.
  destruct (negb _); by eexists.
Qed.

(** With a nil context [Do] never enters the loop: it makes no attempt and
    no transport call, and what it returns is an error and no response. *)
Theorem Do_nil_context fuel c rq s :
  let r := Do time_Now validMethod url_Parse fuel c context_nil rq s in
  attempts (calls r) = 0%nat /\ transports (calls r) = 0%nat /\
  outcome r <> OutOfFuel /\
  forall rep err, outcome r = Done (rep, err) -> rep = None /\ is_Some err.
Proof.
  intros r. pose proof (Do_new_request fuel c context_nil rq s) as Hnew.
  fold r in Hnew. subst r.
  destruct (Do _ _ _ _ _ _ _ _) as [[o s'] evs] eqn:Hrun.
  unfold calls, outcome in *. simpl in *.
  apply Do_conducted in Hrun.
  assert (In (EvNewRequest context_nil None) evs -> False) as Hno.
  { intros Hin. rewrite Forall_forall in Hnew.
    apply list_elem_of_In, Hnew in Hin as (m & u & b & Hin).
    destruct (nil_context_is_refused m u b) as [e He].
    by rewrite He in Hin. }
  assert (forall L, evs = setup c context_nil ++ L -> False) as Hsetup.
  { intros L ->. apply Hno, list_elem_of_In. unfold setup. set_solver. }
  destruct Hrun; try (exfalso; eapply Hsetup; by rewrite <- ?app_assoc).
  all: split_and!; try done; try (by count_parts).
  all: intros rep err ?; by simplify_eq.
Qed.

(** ** What [Do] returns *)





(** ** How often [Do] sleeps *)





(** ** Clients that never retry *)



(** ** The transport request of a pass *)

Lemma rewindBody_heap rq count s s' evs r raw0 :
  rewindBody rq count s = (Done None, s', evs) ->
  heap s !! rq = Some r -> rawRequest r = Some raw0 ->
  exists r', heap s' !! rq = Some r' /\
             rawRequest r' = Some (resent count r raw0).
Proof.
  unfold rewindBody, resent. intros H Hs Hraw.
  destruct (1 <=? count).
  - runs. eexists. split; [heap_ok|done].
  - runs. by eexists.
Qed.

Lemma exchange_sends c rq cb s o s' evs r raw :
  exchange c rq cb s = (o, s', evs) ->
  heap s !! rq = Some r -> rawRequest r = Some raw ->
  Forall (sends raw) evs.
Proof.
  unfold exchange, Execute, clientDo. intros H Hs Hraw.
  destruct cb; runs.
  all: repeat match goal with
         | H : heap _ = heap _ |- _ => rewrite H in *; clear H
         end; simplify_eq.
  all: simpl; rewrite ?app_nil_r; by repeat constructor.
Qed.

Lemma attempt_sends c rq count s r raw0 :
  heap s !! rq = Some r -> rawRequest r = Some raw0 ->
  Forall (sends (resent count r raw0))
    (calls (attempt time_Now c rq count s)).
Proof.
  intros Hs Hraw.
  destruct (attempt _ _ _ _ _) as [[o s'] evs] eqn:H.
  unfold calls. simpl. unfold attempt in H.
  apply bind_inv in H as [(r' & ? & ? & ? & Hr & H & ->) | [[Hr ->] | [Hr ->]]];
    apply deref_inv in Hr as (-> & -> & Hr); rewrite Hs in Hr; simplify_eq.
  rewrite resolve_eq in H. cbv beta in H.
  apply bind_inv in H as [(cb & s1 & ? & ? & Hg & H & ->) | [[Hg ->] | [Hg ->]]];
    unfold GetCircuit, bind, emit, ret in Hg; simpl in Hg; simplify_eq.
  simpl. apply Forall_cons. split; [done|].
  apply bind_inv in H as [(err & s2 & ? & ? & Hw & H & ->) | [[Hw ->] | [Hw ->]]].
  2,3: apply rewindBody_run in Hw as [(? & ? & ? & ?)|[(? & ? & ?)|(? & ? & ?)]];
    [| | |heap_ok]; simplify_eq; by repeat constructor.
  destruct err as [e|].
  { apply rewindBody_run in Hw as [(? & ? & ? & ?)|[(? & ? & ?)|(? & ? & ?)]];
      [| | |heap_ok]; simplify_eq. runs. by repeat constructor. }
  destruct (rewindBody_heap _ _ _ _ _ _ _ Hw Hs Hraw) as (r2 & Hs2 & Hraw2).
  apply rewindBody_run in Hw as [(? & ? & ? & ?)|[(? & ? & ?)|(? & ? & ?)]];
    [| | |heap_ok]; simplify_eq.
  apply Forall_app. split; [by apply Forall_rewound|].
  apply bind_inv in H as [(res & s3 & ? & ? & Hx & H & ->) | [[Hx ->] | [Hx ->]]];
    pose proof (exchange_sends _ _ _ _ _ _ _ _ _ Hx Hs2 Hraw2) as Hsends;
    try done.
  apply Forall_app. split; [done|].
  apply exchange_run in Hx as [(? & ?)|(? & ? & ? & ? & ? & ?)]; [| |heap_ok];
    simplify_eq.
  clear Hsends. runs.
  all: rewrite ?app_nil_r; simpl; rewrite ?app_nil_r.
  all: Forall_parts; done.
Qed.

(** The transport call of a pass is made with the transport request the
    request holds when the pass begins; on a retry ([count >= 1]) its body
    is the one [ReqBody] gives then, while context, method and URL stay. *)
Theorem retry_sends_the_body_again c rq count s r raw0 pre raw rsp err post :
  heap s !! rq = Some r -> rawRequest r = Some raw0 ->
  calls (attempt time_Now c rq count s) = pre ++ EvTransport raw rsp err :: post ->
  raw = (if 1 <=? count
         then {| Request_ctx := Request_ctx raw0; Method := Method raw0;
                 URL := URL raw0; Request_Body := (ReqBody r).1 |}
         else raw0) /\
  Forall (sends raw) (calls (attempt time_Now c rq count s)).
Proof.
  intros Hs Hraw Hsplit.
  pose proof (attempt_sends c rq count s r raw0 Hs Hraw) as Hsends.
  assert (raw = resent count r raw0) as ->; [|done].
  rewrite Hsplit in Hsends.
  by apply Forall_app in Hsends as [_ [Hsends _]%Forall_cons].
Qed.

(** ** The transport request [Do] builds *)








End Runs.

(** * The engine on the example clients *)

Import Examples.







(** C2 as stated fails: a breaker that is resolved and says it is open does
    not stop the loop after an attempt whose guarded call returned no error
    (here HTTP 500, on which the retry hook votes retry: a second transport
    call is made), nor after an attempt it refused to run (the retry hook
    votes on the error of the breaker, the call sleeps and a second pass
    enters the breaker); in neither case is the breaker asked. *)
Lemma C2_counterexample :
  (h c_open !! "main"%string = Some open_breaker /\
   (forall w, IsOpen open_breaker w = true) /\
   transports (calls (run 10 c_open context_Background (bodyBytes []))) = 2%nat) /\
  (h c_refused !! "main"%string = Some refusing_breaker /\
   (forall w, IsOpen refusing_breaker w = true) /\
   attempts (calls (run 10 c_refused context_Background (bodyBytes []))) = 2%nat /\
   In (EvSleep 100) (calls (run 10 c_refused context_Background (bodyBytes [])))).
Proof.
  split_and!; try done. vm_compute. tauto.
Qed.

(** C2 on the client with [retry = 5] whose breaker is open after the first
    failing attempt: one attempt, then only the log line. *)
Lemma C2_witness :
  let r := run 10 c_tripped context_Background (bodyBytes []) in
  calls r = take 5 (calls r) ++ EvIsOpen true :: drop 6 (calls r) /\
  Forall (fun x => in_loop x = false) (drop 6 (calls r)) /\
  after_failed_guarded_call (take 5 (calls r)).
Proof.
  assert (H : let r := run 10 c_tripped context_Background (bodyBytes []) in
              calls r = take 5 (calls r) ++ EvIsOpen true :: drop 6 (calls r))
    by reflexivity.
  split; [exact H|].
  exact (proj1 (C2_open_breaker_after_failed_call_stops clock anyMethod anyURL
                  10 c_tripped context_Background 1%nat (start (bodyBytes [])))
           _ _ H).
Defined.



(** C5 on a first attempt of the client whose breaker is registered under
    the default name. *)
Lemma C5_witness :
  heap (ready c_tripped) !! 1%nat = Some sent_x /\
  exists rest,
    calls (attempt clock c_tripped 1%nat 0 (ready c_tripped))
    = EvGetCircuit "main" true :: rest /\
    attempts rest = 0%nat.
Proof.
  assert (H : heap (ready c_tripped) !! 1%nat = Some sent_x) by reflexivity.
  split; [exact H|].
  destruct (C5_breaker_resolution clock c_tripped 1%nat 0 (ready c_tripped)
              sent_x H) as (rest & Hcalls & Hrest & _).
  exists rest. exact (conj Hcalls Hrest).
Defined.


(** C7 on a request whose body cannot be serialized. *)
Lemma C7_witness :
  heap (start (bodyUnserializable "unsupported type")) !! 1%nat
  = Some (get_x (bodyUnserializable "unsupported type")) /\
  run 10 c_flaky context_Background (bodyUnserializable "unsupported type")
  = (Done (None, Some "unsupported type"%string),
     start (bodyUnserializable "unsupported type"),
     [EvReqBody (Some "unsupported type"%string);
      EvLog "request.reqBody" "unsupported type"]).
Proof.
  split; [reflexivity|].
  apply (C7_body_error_fails_fast clock anyMethod anyURL 10 c_flaky
           context_Background 1%nat
           (start (bodyUnserializable "unsupported type"))
           (get_x (bodyUnserializable "unsupported type"))
           "unsupported type"); reflexivity.
Defined.


(** C9 fails in the code: [Do] builds the transport request with the
    context of the caller and enters the breaker with [context.TODO()],
    which cannot be cancelled; so in every call, and here in one whose
    caller passes a context with a cancel function. *)
Theorem C9_breaker_runs_under_TODO :
  (forall World (time_Now : World -> Z) validMethod url_Parse fuel c ctx rq s ctx',
      In (EvExecute ctx')
        (calls (Do (World := World) time_Now validMethod url_Parse fuel c ctx rq s)) ->
      ctx' = context_TODO /\ cancellable ctx' = false) /\
  (let r := run 10 c_tripped (context_WithCancel 7) (bodyBytes []) in
   cancellable (context_WithCancel 7) = true /\
   is_Some (h c_tripped !! "main"%string) /\
   In (EvNewRequest (context_WithCancel 7) None) (calls r) /\
   In (EvExecute context_TODO) (calls r) /\
   ~ In (EvExecute (context_WithCancel 7)) (calls r)).
Proof.
  split.
  - intros World time_Now validMethod url_Parse fuel c ctx rq s ctx' Hin.
    pose proof (Do_contexts time_Now validMethod url_Parse fuel c ctx rq s) as H.
    rewrite Forall_forall in H. apply list_elem_of_In, H in Hin. by subst.
  - split_and!; [done|by eexists|vm_compute; tauto..|].
    vm_compute. intros H. repeat destruct H as [H|H]; first [discriminate H | exact H].
Qed.

(** C10 on the client whose transport is down: the retry hook gets a
    [Response] that refers to the request and holds nothing else. *)
Lemma C10_witness :
  let a := attempt clock c_down 1%nat 0 (ready c_down) in
  exists raw err resp,
    calls a = take 1 (calls a) ++ EvTransport raw None err :: drop 2 (calls a) /\
    In (EvRetryHook 0 resp err true) (drop 2 (calls a)) /\
    resp = Some {| request := 1%nat; rawResponse := None;
                   body := None; statusCode := 0 |}.
Proof.
  eexists _, _, _.
  assert (H : let a := attempt clock c_down 1%nat 0 (ready c_down) in
              calls a = take 1 (calls a)
                        ++ EvTransport _ None (Some "connection refused"%string)
                        :: drop 2 (calls a))
    by reflexivity.
  split; [exact H|].
  assert (Hin : In (EvRetryHook 0
                      (Some {| request := 1%nat; rawResponse := None;
                               body := None; statusCode := 0 |})
                      (Some "connection refused"%string) true)
                  (drop 2 (calls (attempt clock c_down 1%nat 0 (ready c_down)))))
    by (vm_compute; tauto).
  split; [exact Hin|].
  exact (proj1 (proj2 (C10_retry_hooks_get_a_response clock anyMethod anyURL 10
                         c_down context_Background 1%nat (start (bodyBytes [])))
                  _ _ _ _ _ _ _ _ _ _ H Hin)).
Defined.

(** * The constructor *)

Section NewFacts.
Import Construction.
Context {World BasicAuth http_Cookie : Type}.
Variable defaultBeforeRequestHooks : list (BeforeRequestHook World).
Variable defaultRequestHooks : list (RequestHook World).
Variable defaultResponseHooks : list (responseHook World).
Variable defaultRetryHooks : list (RetryHook World).
Variable fStd : Z.

Implicit Types (c : Cast (World := World) (BasicAuth := BasicAuth)
                      (http_Cookie := http_Cookie)).
Implicit Types (sl : list (Setter (World := World) (BasicAuth := BasicAuth)
                             (http_Cookie := http_Cookie))).

Local Abbreviation start :=
  (initial defaultBeforeRequestHooks defaultRequestHooks defaultResponseHooks
     defaultRetryHooks fStd).
Local Abbreviation New' :=
  (New defaultBeforeRequestHooks defaultRequestHooks defaultResponseHooks
     defaultRetryHooks fStd).

Lemma applySetters_app sl1 sl2 c :
  applySetters (sl1 ++ sl2) c
  = match applySetters sl1 c with
    | (Some e, c') => (Some e, c')
    | (None, c') => applySetters sl2 c'
    end.
Proof.
  revert c. induction sl1 as [|s sl1 IH]; intros c; simpl; [done|].
  destruct (s c) as [[e|] c']; [done|]. apply IH.
Qed.

Lemma applySetters_error sl c c' e :
  applySetters sl c = (Some e, c') ->
  exists sl1 s sl2 c1,
    sl = sl1 ++ s :: sl2 /\
    applySetters sl1 c = (None, c1) /\
    s c1 = (Some e, c').
Proof.
  revert c. induction sl as [|s sl IH]; intros c H; simpl in H; [done|].
  destruct (s c) as [[e'|] c1] eqn:Hs.
  - simplify_eq. by exists [], s, sl, c.
  - destruct (IH _ H) as (sl1 & s' & sl2 & c2 & -> & H1 & H2).
    exists (s :: sl1), s', sl2, c2. split_and!; [done| |done].
    simpl. by rewrite Hs.
Qed.

(** [New] returns an error exactly when a setter fails on the [Cast] the
    setters before it, which all passed, have built from the defaults: the
    error is that of this first failing setter, and the setters after it
    do not matter. *)
Theorem New_fails_with_the_first_setter_error sl e :
  (New' sl).2 = Some e
  <-> exists sl1 s sl2 c1 c',
      sl = sl1 ++ s :: sl2 /\
      applySetters sl1 start = (None, c1) /\
      s c1 = (Some e, c').
Proof.
  unfold New. split.
  - destruct (applySetters sl _) as [[e'|] c] eqn:H; [|done].
    simpl. intros [= ->].
    apply applySetters_error in H as (sl1 & s & sl2 & c1 & ? & ? & ?).
    by exists sl1, s, sl2, c1, c.
  - intros (sl1 & s & sl2 & c1 & c' & -> & H1 & H2).
    rewrite applySetters_app, H1. simpl. by rewrite H2.
Qed.


End NewFacts.

(** * More runs of the example clients *)

Import MoreExamples.

(** The client whose transport is down logs once, at the end. *)
Lemma Do_logs_once_and_last_witness :
  let r := run 10 c_down context_Background (bodyBytes []) in
  calls r = take 20 (calls r)
            ++ EvLog "c.client.Do" "connection refused" :: drop 21 (calls r) /\
  drop 21 (calls r) = [] /\
  outcome r = Done (None, Some "connection refused"%string).
Proof.
  assert (H : let r := run 10 c_down context_Background (bodyBytes []) in
              calls r = take 20 (calls r)
                        ++ EvLog "c.client.Do" "connection refused"
                        :: drop 21 (calls r))
    by reflexivity.
  split; [exact H|].
  destruct (Do_logs_once_and_last clock anyMethod anyURL 10 c_down
              context_Background 1%nat (start (bodyBytes [])) _ _ _ _ H)
    as (Hpost & _ & Hout).
  exact (conj Hpost Hout).
Defined.

(** The client whose retry hook spoils the body: the second pass ends the
    call on [ReqBody], without a log line. *)
Lemma body_error_ends_the_call_witness :
  let r := run 10 c_spoiling context_Background (bodyBytes []) in
  calls r = take 7 (calls r) ++ EvReqBody (Some "unsupported type"%string)
            :: [] /\
  outcome r = Done (None, Some "unsupported type"%string) /\
  (2 <= attempts (take 7 (calls r)))%nat.
Proof.
  assert (H : let r := run 10 c_spoiling context_Background (bodyBytes []) in
              calls r = take 7 (calls r)
                        ++ EvReqBody (Some "unsupported type"%string) :: [])
    by reflexivity.
  split; [exact H|].
  destruct (body_error_ends_the_call clock anyMethod anyURL 10 c_spoiling
              context_Background 1%nat (start (bodyBytes [])) _ _ _ H)
    as (Hout & [(Hpre & _)|(_ & Hpre & _)]).
  - discriminate Hpre.
  - exact (conj Hout Hpre).
Defined.

(** With a nil context the transport request cannot be built. *)
Lemma request_error_ends_the_call_witness :
  let r := run 10 c_flaky context_nil (bodyBytes []) in
  calls r = [EvReqBody None]
            ++ EvNewRequest context_nil (Some "net/http: nil Context"%string)
            :: [EvLog "http.NewRequest" "net/http: nil Context"] /\
  outcome r = Done (None, Some "net/http: nil Context"%string) /\
  attempts (calls r) = 0%nat.
Proof.
  assert (H : let r := run 10 c_flaky context_nil (bodyBytes []) in
              calls r = [EvReqBody None]
                        ++ EvNewRequest context_nil
                             (Some "net/http: nil Context"%string)
                        :: [EvLog "http.NewRequest" "net/http: nil Context"])
    by reflexivity.
  split; [exact H|].
  destruct (request_error_ends_the_call clock anyMethod anyURL 10 c_flaky
              context_nil 1%nat (start (bodyBytes [])) _ _ _ _ H)
    as (_ & Hout & _ & _ & _ & Hatt & _).
  exact (conj Hout Hatt).
Defined.




(** A retry of a POST sends the body again. *)
Lemma retry_sends_the_body_again_witness :
  let a := attempt clock c_flaky 1%nat 1 retrying in
  heap retrying !! 1%nat = Some posted_x /\
  exists raw rsp err,
    calls a = take 2 (calls a) ++ EvTransport raw rsp err :: drop 3 (calls a) /\
    Request_Body raw = ["h"%byte; "i"%byte].
Proof.
  assert (Hs : heap retrying !! 1%nat = Some posted_x) by reflexivity.
  split; [exact Hs|].
  eexists _, _, _.
  assert (H : let a := attempt clock c_flaky 1%nat 1 retrying in
              calls a = take 2 (calls a) ++ EvTransport _ _ _ :: drop 3 (calls a))
    by reflexivity.
  split; [exact H|].
  destruct (retry_sends_the_body_again clock c_flaky 1%nat 1 retrying posted_x
              _ _ _ _ _ _ Hs eq_refl H) as [Hraw _].
  exact (f_equal Request_Body Hraw).
Defined.



(** The second of three setters fails. *)
Lemma New_fails_with_the_first_setter_error_witness :
  (New0 [WithRetry 3; WithError "bad option"; WithRetry 4]).2
  = Some "bad option"%string.
Proof.
  apply (proj2 (New_fails_with_the_first_setter_error [] [] [] [] 0
                  [WithRetry 3; WithError "bad option"; WithRetry 4]
                  "bad option")).
  eexists [WithRetry 3], (WithError "bad option"), [WithRetry 4], _, _.
  split; [reflexivity|]. split; reflexivity.
Defined.
